(** * hiredis-consumer: the message pipeline of [consumer.c]

    A shallow embedding of [src/consumer.c] and [src/consumer.h].

    Conventions.
    - A C string is the [string] of its bytes before the terminating zero
      byte; [strcmp(a, b) == 0] is [String.eqb].
    - [int] values are [Z]; no arithmetic of the program leaves the range of
      [int] on the paths studied here (the counters are bounded by
      [MAX_PROCESSED_MSGS] and by the 1 ms pause of the run loop).
    - Output is a trace of [event]s: the [printf]/[fprintf] calls with their
      format string as the source spells it, the commands handed to
      [redisCommand] split into their arguments, and the release calls.
    - What the program obtains from its environment (replies of the broker,
      bytes of the socket, the clock, the contents of memory that the
      program reads before writing it) is an explicit argument.
    - jansson and the hiredis reply reader are libraries outside this
      repository: the functions of the program are stated over any
      implementation of them (the classes [Jansson] and [Hiredis]).
      [Module Wire] gives an executable reading of both for the concrete
      runs. *)

From Stdlib Require Import ZArith List String Ascii Bool Lia DecimalString.
Import ListNotations.

Local Open Scope string_scope.
Local Open Scope list_scope.
Local Open Scope Z_scope.

(** ** consumer.h *)

Definition REDIS_HOST : string := "localhost".
Definition REDIS_PORT : Z := 6379.
Definition PUBLISH_CHANNEL : string := "messages:published".
Definition CONSUMER_GROUP : string := "test_group".
Definition STREAM_KEY : string := "messages:processed".
Definition MESSAGES_BUFFER_SIZE : Z := 1024.
Definition MAX_PROCESSED_MSGS : Z := 10000.
Definition MSG_ID_SIZE : Z := 36.

Definition EXIT_SUCCESS : Z := 0.
Definition EXIT_FAILURE : Z := 1.

(** ** Output trace *)

Inductive arg : Type :=
| AStr (s : string)
| AInt (n : Z)
| ANull.

Inductive event : Type :=
| Printf (fmt : string) (args : list arg)        (* printf(fmt, args...) *)
| Eprintf (fmt : string) (args : list arg)       (* fprintf(stderr, fmt, args...) *)
| Help                                           (* help(argv[0]) *)
| RedisCommand (argv : list arg)                 (* redisCommand(c, ...) *)
| RedisFree                                      (* redisFree(ctx) *)
| RedisReaderFree                                (* redisReaderFree(reader) *)
| FreeConsumerState                              (* freeConsumerState(state) *)
| Usleep (us : Z)
| Exit (status : Z).

Definition trace : Type := list event.

Definition arg_eqb (a b : arg) : bool :=
  match a, b with
  | AStr s, AStr t => String.eqb s t
  | AInt n, AInt m => Z.eqb n m
  | ANull, ANull => true
  | _, _ => false
  end.

(** [%s] of a possibly null [char *]. *)
Definition str_arg (s : option string) : arg :=
  match s with Some v => AStr v | None => ANull end.

(** ** The dedup cache: [consumerState]

    [processed_message_ids] holds the cells of the C array that have been
    written, in index order; [processed_message_count] is their number (the
    only writer, [addProcessedMessage], fills cell [count] and increments
    [count]). *)

Record consumerState : Type := mkConsumerState {
  processed_message_ids : list string
}.

Definition processed_message_count (state : consumerState) : Z :=
  Z.of_nat (List.length (processed_message_ids state)).

Definition createConsumerState : consumerState :=
  {| processed_message_ids := [] |}.

(** The loop of [isMessageProcessed]: an index scan with [strcmp]. *)
Fixpoint scan_ids (ids : list string) (message_id : string) : Z :=
  match ids with
  | [] => 0
  | stored :: rest =>
      if String.eqb stored message_id then 1 else scan_ids rest message_id
  end.

Definition isMessageProcessed (state : consumerState) (message_id : string) : Z :=
  scan_ids (processed_message_ids state) message_id.

(** [strncpy(dst, src, n)] into a block whose bytes from index [n] on read,
    up to their first zero byte, as [after]: the C string found at [dst]
    afterwards when [n <= strlen(src)] (no terminator is copied). *)
Definition strncpy_unterminated (src : string) (n : nat) (after : string) : string :=
  String.append (substring 0 n src) after.

Definition CAPACITY_WARNING : event :=
  Eprintf "Warning: Processed message limit reached for consumer. Skipping adding new IDs.\n" [].

(** [addProcessedMessage]. The cell is [malloc(strlen(message_id) + 1)] and
    receives [strncpy(cell, message_id, strlen(message_id))]: the byte at
    index [strlen(message_id)] keeps what [malloc] returned. [heap_tail] is
    the C string read from that index ([EmptyString] when that byte is
    zero). *)
Definition addProcessedMessage (state : consumerState) (message_id : string)
    (heap_tail : string) : consumerState * trace :=
  if processed_message_count state <? MAX_PROCESSED_MSGS then
    ({| processed_message_ids :=
          processed_message_ids state ++
          [strncpy_unterminated message_id (String.length message_id) heap_tail] |},
     [])
  else (state, [CAPACITY_WARNING]).

(** A sequence of insertions, each with the heap contents it meets. *)
Fixpoint add_all (state : consumerState) (ins : list (string * string))
    : consumerState * trace :=
  match ins with
  | [] => (state, [])
  | (message_id, heap_tail) :: rest =>
      let '(state1, t1) := addProcessedMessage state message_id heap_tail in
      let '(state2, t2) := add_all state1 rest in
      (state2, t1 ++ t2)
  end.

(** ** jansson values

    The part of jansson's data model the program touches. An object keeps
    its members in insertion order, one member per key. *)

#[local] Unset Elimination Schemes.

Inductive json_t : Type :=
| JNull
| JTrue
| JFalse
| JInteger (n : Z)
| JReal (text : string)
| JString (s : string)
| JArray (elems : list json_t)
| JObject (members : list (string * json_t)).

#[local] Set Elimination Schemes.

(** Result of [json_loads(buffer, 0, &error)]: the root, or [NULL] with
    [error.line] and [error.text] filled in. *)
Inductive loads_result : Type :=
| Loaded (root : json_t)
| LoadError (line : Z) (text : string).

(** The library functions whose internals are not part of the program. *)
Class Jansson : Type := {
  (** [json_loads(s, 0, &error)] on a non-null buffer *)
  json_loads : string -> loads_result;
  (** the UTF-8 check [json_string] applies to its argument *)
  utf8_check_string : string -> bool;
  (** the text [json_dumps(json, JSON_COMPACT)] builds for an array or object *)
  json_dumps_compact : json_t -> string
}.

Definition json_is_string (json : option json_t) : bool :=
  match json with Some (JString _) => true | _ => false end.

Definition json_string_value (json : option json_t) : option string :=
  match json with Some (JString s) => Some s | _ => None end.

Fixpoint members_get (members : list (string * json_t)) (key : string)
    : option json_t :=
  match members with
  | [] => None
  | (k, v) :: rest => if String.eqb k key then Some v else members_get rest key
  end.

Definition json_object_get (json : option json_t) (key : string) : option json_t :=
  match json with
  | Some (JObject members) => members_get members key
  | _ => None
  end.

(** An existing key keeps its place and takes the new value; a new key goes
    to the end. *)
Fixpoint members_set (members : list (string * json_t)) (key : string)
    (value : json_t) : list (string * json_t) :=
  match members with
  | [] => [(key, value)]
  | (k, v) :: rest =>
      if String.eqb k key then (k, value) :: rest
      else (k, v) :: members_set rest key value
  end.

(** [json_object_set_new(json, key, value)]: the return code and the object
    [json] points to afterwards. Fails without effect when [value] is null
    or [json] is not an object. *)
Definition json_object_set_new (json : option json_t) (key : string)
    (value : option json_t) : Z * option json_t :=
  match value, json with
  | Some v, Some (JObject members) => (0, Some (JObject (members_set members key v)))
  | _, _ => (-1, json)
  end.

Definition json_integer (n : Z) : option json_t := Some (JInteger n).

Section JanssonCalls.
Context {J : Jansson}.

(** [json_loads] with the null check it starts with. *)
Definition json_loads_buf (buffer : option string) : loads_result :=
  match buffer with
  | None => LoadError (-1) "wrong arguments"
  | Some s => json_loads s
  end.

Definition json_string (value : string) : option json_t :=
  if utf8_check_string value then Some (JString value) else None.

(** [json_dumps(json, JSON_COMPACT)]: null for a null pointer and for a
    root that is neither array nor object. *)
Definition json_dumps (json : option json_t) : option string :=
  match json with
  | Some (JArray elems) => Some (json_dumps_compact (JArray elems))
  | Some (JObject members) => Some (json_dumps_compact (JObject members))
  | _ => None
  end.
End JanssonCalls.

Definition loaded_root (r : loads_result) : option json_t :=
  match r with Loaded root => Some root | LoadError _ _ => None end.

(** ** hiredis replies and context *)

#[local] Unset Elimination Schemes.

Inductive redisReply : Type :=
| ReplyString (str : string)
| ReplyArray (element : list redisReply)
| ReplyInteger (integer : Z)
| ReplyNil
| ReplyStatus (str : string)
| ReplyError (str : string).

#[local] Set Elimination Schemes.

Definition is_REDIS_REPLY_ARRAY (reply : redisReply) : bool :=
  match reply with ReplyArray _ => true | _ => false end.

Definition elements (reply : redisReply) : Z :=
  match reply with ReplyArray element => Z.of_nat (List.length element) | _ => 0 end.

(** [reply->element[i]->str]; [str] is null in replies that carry no text. *)
Definition reply_str (reply : redisReply) : option string :=
  match reply with
  | ReplyString s | ReplyStatus s | ReplyError s => Some s
  | _ => None
  end.

Definition element_str (reply : redisReply) (i : nat) : option string :=
  match reply with
  | ReplyArray element =>
      match nth_error element i with Some e => reply_str e | None => None end
  | _ => None
  end.

Record redisContext : Type := mkContext {
  err : Z;
  errstr : string;
  fd : Z
}.

(** What one [redisCommand(c, ...)] call comes back with: the reply pointer
    and the error fields of [c] afterwards. *)
Record command_result : Type := mkResult {
  reply : option redisReply;
  err_after : Z;
  errstr_after : string
}.

Definition after_command (c : redisContext) (r : command_result) : redisContext :=
  {| err := err_after r; errstr := errstr_after r; fd := fd c |}.

(** The test [!reply || c->err] (and [reply == NULL || c->err]). *)
Definition command_failed (r : command_result) : bool :=
  match reply r with
  | None => true
  | Some _ => negb (err_after r =? 0)
  end.

(** ** parseMessage and processMessage *)

Record Message : Type := mkMessage {
  message_id : string   (* char message_id[37] *)
}.

(** What one call of [processMessage] meets in its environment. *)
Record call_env : Type := mkEnv {
  (** the bytes of the local [parsed_message] before anything is stored
      in it, read as a C string *)
  stack_message_id : string;
  (** the outcome of the [XADD], if the call gets there *)
  xadd : command_result;
  (** the memory after the copy made by [addProcessedMessage] *)
  heap_tail : string
}.

Definition XADD (id : string) (consumer_id : Z) : event :=
  RedisCommand [AStr "XADD"; AStr STREAM_KEY; AStr "*";
                AStr "message_id"; AStr id;
                AStr "consumer_id"; AInt consumer_id].

Section Consumer.
Context {J : Jansson}.

Definition parseMessage (json_string : option string) (message : Message)
    : Z * Message * trace :=
  match json_loads_buf json_string with
  | LoadError line text =>
      (-1, message,
       [Eprintf "Error parsing JSON on line %d: %s\n" [AInt line; AStr text]])
  | Loaded root =>
      match json_object_get (Some root) "message_id" with
      | Some (JString value) =>
          (* strncpy(message->message_id, value, 36); message_id[36] = 0 *)
          (0, {| message_id := substring 0 36 value |}, [])
      | _ =>
          (-1, message,
           [Eprintf "Error: 'message_id' is missing or not a string\n" []])
      end
  end.

Definition processMessage (c : redisContext) (message : option string)
    (consumer_id : Z) (env : call_env) (state : consumerState)
    : consumerState * redisContext * trace :=
  let t_recv := [Printf "Received message: %s\n" [str_arg message]] in
  let json_msg := loaded_root (json_loads_buf message) in
  let uninitialised := {| message_id := stack_message_id env |} in
  let '(ret, parsed_message, t_parse) := parseMessage message uninitialised in
  let id := message_id parsed_message in
  let t_parsed :=
    if ret =? 0 then [Printf "Parsed message_id: %s\n" [AStr id]]
    else [Printf "Failed to parse the JSON\n" []] in
  let t1 := t_recv ++ t_parse ++ t_parsed in
  if negb (isMessageProcessed state id =? 0) then
    (state, c,
     t1 ++ [Printf "Consumer %d skipping already processed message: %s\n"
              [AInt consumer_id; AStr id]])
  else
    let json_msg := snd (json_object_set_new json_msg "message_id" (json_string id)) in
    let json_msg := snd (json_object_set_new json_msg "consumer_id" (json_integer consumer_id)) in
    match json_dumps json_msg with
    | None =>
        (state, c,
         t1 ++ [Eprintf "Error serializing JSON object for message: %s\n" [AStr id]])
    | Some modified_message =>
        let t2 := t1 ++ [Printf "Processed message: %s\n" [AStr modified_message];
                         XADD id consumer_id] in
        let c := after_command c (xadd env) in
        if command_failed (xadd env) then
          (state, c,
           t2 ++ [Eprintf "Error storing processed message in Redis: %s\n"
                    [AStr (errstr c)]])
        else
          let '(state, t_add) := addProcessedMessage state id (heap_tail env) in
          (state, c, t2 ++ t_add)
    end.
End Consumer.

(** ** The reply reader

    [redisReaderFeed] appends bytes to the reader's buffer and
    [redisReaderGetReply] takes at most one complete reply off its front.
    The wire protocol itself is hiredis's: [reader_parse] says what the
    front of a buffer holds. *)

Inductive parse_result : Type :=
| Incomplete                                   (* no complete reply yet *)
| Complete (reply : redisReply) (rest : string) (* one reply and the bytes after it *)
| ProtocolError.

Class Hiredis : Type := {
  reader_parse : string -> parse_result
}.

Record redisReader : Type := mkReader {
  buf : string
}.

Definition redisReaderCreate : redisReader := {| buf := EmptyString |}.

Definition redisReaderFeed (r : redisReader) (messages : string) (n : Z) : redisReader :=
  {| buf := String.append (buf r) (substring 0 (Z.to_nat n) messages) |}.

Definition REDIS_OK : Z := 0.
Definition REDIS_ERR : Z := -1.

Section ReaderCalls.
Context {H : Hiredis}.

(** [redisReaderGetReply(reader, &reply)]: the status, [reply] and the
    reader afterwards. *)
Definition redisReaderGetReply (r : redisReader)
    : Z * option redisReply * redisReader :=
  match reader_parse (buf r) with
  | Incomplete => (REDIS_OK, None, r)
  | Complete reply rest => (REDIS_OK, Some reply, {| buf := rest |})
  | ProtocolError => (REDIS_ERR, None, r)
  end.
End ReaderCalls.

(** ** shutdown

    The two global pointers. Nothing in the program stores [NULL] into
    them again, so after a release the pointer stays non-null and refers to
    released memory. *)

Inductive pointer : Type :=
| Null
| Valid
| Released.

Definition non_null (p : pointer) : bool :=
  match p with Null => false | _ => true end.

Record globals : Type := mkGlobals {
  global_redis_context : pointer;
  global_consumer_state : pointer
}.

(** [shutdown] statement by statement: the two guarded releases, then
    [exit(0)]. *)
Definition shutdown_stmt (pc : nat) (g : globals) : globals * trace :=
  match pc with
  | O =>
      if non_null (global_redis_context g) then
        ({| global_redis_context := Released;
            global_consumer_state := global_consumer_state g |},
         [Printf "\nCleaning up redis context...\n" []; RedisFree])
      else (g, [])
  | S O =>
      if non_null (global_consumer_state g) then
        ({| global_redis_context := global_redis_context g;
            global_consumer_state := Released |},
         [Printf "\nCleaning up consumer state...\n" []; FreeConsumerState])
      else (g, [])
  | _ => (g, [Exit 0])
  end.

(** The statements [from], [from + 1], ..., [from + count - 1]. *)
Fixpoint shutdown_stmts (from count : nat) (g : globals) : globals * trace :=
  match count with
  | O => (g, [])
  | S count' =>
      let '(g1, t1) := shutdown_stmt from g in
      let '(g2, t2) := shutdown_stmts (S from) count' g1 in
      (g2, t1 ++ t2)
  end.

Definition shutdown (signum : Z) (g : globals) : globals * trace :=
  shutdown_stmts 0 3 g.

(** A second trigger delivered when the first run of [shutdown] has
    executed [k] of its statements ([k <= 2]: the third statement ends the
    process). The handler runs again from its start and exits; the first
    run never resumes. *)
Definition shutdown_twice (k : nat) (g : globals) : globals * trace :=
  let '(g1, t1) := shutdown_stmts 0 k g in
  let '(g2, t2) := shutdown 0 g1 in
  (g2, t1 ++ t2).

Definition is_RedisFree (e : event) : bool :=
  match e with RedisFree => true | _ => false end.

Definition is_FreeConsumerState (e : event) : bool :=
  match e with FreeConsumerState => true | _ => false end.

Definition count_events (p : event -> bool) (t : trace) : nat :=
  List.length (filter p t).

(** ** main: the command line

    [getopt_long] belongs to the C library; its successive results (the
    option character and [optarg]) are the input here. *)

Definition isspace (c : ascii) : bool :=
  let n := nat_of_ascii c in
  (Nat.eqb n 32 || (Nat.leb 9 n && Nat.leb n 13))%bool.

Definition isdigit (c : ascii) : bool :=
  let n := nat_of_ascii c in (Nat.leb 48 n && Nat.leb n 57)%bool.

Fixpoint skip_spaces (s : string) : string :=
  match s with
  | String c rest => if isspace c then skip_spaces rest else s
  | EmptyString => s
  end.

Fixpoint digits_value (s : string) (acc : Z) : Z :=
  match s with
  | String c rest =>
      if isdigit c
      then digits_value rest (10 * acc + (Z.of_nat (nat_of_ascii c) - 48))
      else acc
  | EmptyString => acc
  end.

(** [atoi] on a text whose value fits an [int]. *)
Definition atoi (s : string) : Z :=
  match skip_spaces s with
  | String "-" rest => - digits_value rest 0
  | String "+" rest => digits_value rest 0
  | s' => digits_value s' 0
  end.

Record options : Type := mkOptions {
  consumer_group_size : Z;
  consumer_id : Z;
  redis_host : string;
  redis_port : Z;
  verbose : Z
}.

Definition initial_options : options :=
  {| consumer_group_size := -1; consumer_id := -1;
     redis_host := REDIS_HOST; redis_port := REDIS_PORT; verbose := 0 |}.

(** Either the process has ended, with its output and exit status, or it
    goes on with a value. *)
Inductive step (A : Type) : Type :=
| Exited (t : trace) (status : Z)
| Goes (t : trace) (a : A).
Arguments Exited {A} t status.
Arguments Goes {A} t a.

(** The [while ((opt = getopt_long(...)) != -1)] loop. *)
Fixpoint option_loop (opts : list (ascii * string)) (o : options) : step options :=
  match opts with
  | [] => Goes [] o
  | (opt, optarg) :: rest =>
      if Ascii.eqb opt "g" then
        let size := atoi optarg in
        if size <=? 0 then
          Exited [Eprintf "Invalid consumer group size\n" []; Help; Exit EXIT_FAILURE]
                 EXIT_FAILURE
        else
          option_loop rest
            {| consumer_group_size := size; consumer_id := consumer_id o;
               redis_host := redis_host o; redis_port := redis_port o;
               verbose := verbose o |}
      else if Ascii.eqb opt "c" then
        let id := atoi optarg in
        if id <=? 0 then
          Exited [Eprintf "Invalid consumer id\n" []; Help; Exit EXIT_FAILURE]
                 EXIT_FAILURE
        else if id >? consumer_group_size o then
          Exited [Eprintf "Too many consumers. Maximum number of consumers is %d\n"
                    [AInt (consumer_group_size o)];
                  Exit EXIT_FAILURE]
                 EXIT_FAILURE
        else
          option_loop rest
            {| consumer_group_size := consumer_group_size o; consumer_id := id;
               redis_host := redis_host o; redis_port := redis_port o;
               verbose := verbose o |}
      else if Ascii.eqb opt "h" then
        option_loop rest
          {| consumer_group_size := consumer_group_size o;
             consumer_id := consumer_id o;
             redis_host := optarg; redis_port := redis_port o;
             verbose := verbose o |}
      else if Ascii.eqb opt "p" then
        option_loop rest
          {| consumer_group_size := consumer_group_size o;
             consumer_id := consumer_id o;
             redis_host := redis_host o; redis_port := atoi optarg;
             verbose := verbose o |}
      else if Ascii.eqb opt "v" then
        option_loop rest
          {| consumer_group_size := consumer_group_size o;
             consumer_id := consumer_id o;
             redis_host := redis_host o; redis_port := redis_port o;
             verbose := 1 |}
      else if Ascii.eqb opt "?" then
        Exited [Help; Exit EXIT_SUCCESS] EXIT_SUCCESS
      else
        Exited [Help; Exit EXIT_FAILURE] EXIT_FAILURE
  end.

(** Lines 170-234 of [main]: the option loop and the test for the two
    mandatory options. *)
Definition parse_arguments (opts : list (ascii * string)) : step options :=
  match option_loop opts initial_options with
  | Exited t status => Exited t status
  | Goes t o =>
      if ((consumer_group_size o =? -1) || (consumer_id o =? -1))%bool then
        Exited (t ++ [Eprintf "Consumer group size and consumer id are mandatory\n" [];
                      Help; Exit EXIT_FAILURE])
               EXIT_FAILURE
      else Goes t o
  end.

(** What the specification asks of a command line, for comparison with
    [parse_arguments]: the values given for the two options, whatever their
    order. *)
Definition last_value (opt : ascii) (opts : list (ascii * string)) : option Z :=
  fold_left (fun acc '(o, optarg) => if Ascii.eqb o opt then Some (atoi optarg) else acc)
            opts None.

Definition spec_valid_identity (opts : list (ascii * string)) : bool :=
  match last_value "g" opts, last_value "c" opts with
  | Some size, Some id => ((0 <? size) && (0 <? id) && (id <=? size))%bool
  | _, _ => false
  end.

Definition prints_usage (t : trace) : bool :=
  existsb (fun e => match e with Help => true | _ => false end) t.

(** ** main: connection and subscription (lines 236-289) *)

Record startup_env : Type := mkStartup {
  connect : option redisContext;      (* redisConnect(host, port) *)
  xgroup : command_result;            (* XGROUP CREATE ... MKSTREAM *)
  reader_created : bool;              (* redisReaderCreate() != NULL *)
  subscribe : command_result;         (* SUBSCRIBE messages:published *)
  start_clock : Z                     (* time(NULL) before the loop *)
}.

Record loop_state : Type := mkLoop {
  reader : redisReader;
  state : consumerState;              (* *global_consumer_state *)
  ctx : redisContext;                 (* *c *)
  start_time : Z;
  processed_messages : Z
}.

Definition XGROUP_CREATE : event :=
  RedisCommand [AStr "XGROUP"; AStr "CREATE"; AStr STREAM_KEY; AStr CONSUMER_GROUP;
                AStr "0"; AStr "MKSTREAM"].

Definition SUBSCRIBE : event :=
  RedisCommand [AStr "SUBSCRIBE"; AStr PUBLISH_CHANNEL].

(** The check that follows [SUBSCRIBE]: its output. *)
Definition subscription_check (r : redisReply) : trace :=
  if (is_REDIS_REPLY_ARRAY r && (elements r >=? 3))%bool then
    [Printf "Successfully subscribed to channel: %s\n" [str_arg (element_str r 1)]]
  else [].

Definition start (env : startup_env) : step loop_state :=
  match connect env with
  | None => Exited [Eprintf "Error allocating redis context\n" []; Exit EXIT_FAILURE]
                   EXIT_FAILURE
  | Some c =>
      if negb (err c =? 0) then
        Exited [Eprintf "Error connecting to redis server: %s\n" [AStr (errstr c)];
                Exit EXIT_FAILURE]
               EXIT_FAILURE
      else
        let t1 := [XGROUP_CREATE] in
        let c := after_command c (xgroup env) in
        if command_failed (xgroup env) then
          Exited (t1 ++ [Eprintf "Error creating consumer group: %s\n" [AStr (errstr c)];
                         RedisFree; Exit EXIT_FAILURE])
                 EXIT_FAILURE
        else if negb (reader_created env) then
          Exited (t1 ++ [Eprintf "Error creating redisReader\n" [];
                         RedisFree; Exit EXIT_FAILURE])
                 EXIT_FAILURE
        else
          let t2 := t1 ++ [SUBSCRIBE] in
          let c := after_command c (subscribe env) in
          if command_failed (subscribe env) then
            Exited (t2 ++ [Eprintf "Error subscribing to channel: %s\n" [AStr (errstr c)];
                           RedisFree; RedisReaderFree; Exit EXIT_FAILURE])
                   EXIT_FAILURE
          else
            let t3 :=
              match reply (subscribe env) with
              | Some r => subscription_check r
              | None => []     (* excluded by the test above *)
              end in
            Goes (t2 ++ t3)
                 {| reader := redisReaderCreate;
                    state := createConsumerState;
                    ctx := c;
                    start_time := start_clock env;
                    processed_messages := 0 |}
  end.

(** ** main: the run loop (lines 291-330) *)

(** What one turn of the loop meets: the result of [read], the buffer it
    filled, the clock, and the environment of [processMessage]. *)
Record turn_env : Type := mkTurn {
  read_n : Z;               (* n = read(c->fd, messages, sizeof(messages)) *)
  messages : string;        (* the buffer after the read *)
  clock : Z;                (* time(NULL), if the turn asks for it *)
  call : call_env
}.

Section Loop.
Context {J : Jansson} {H : Hiredis}.

(** One turn: its output, the state after it, and whether it ended in
    [break] ([true]) or reached [usleep] ([false]). *)
Definition loop_turn (consumer_id : Z) (e : turn_env) (s : loop_state)
    : trace * loop_state * bool :=
  let n := read_n e in
  if n >? 0 then
    let rd := redisReaderFeed (reader s) (messages e) n in
    let '(res, reply, rd) := redisReaderGetReply rd in
    let same := {| reader := rd; state := state s; ctx := ctx s;
                   start_time := start_time s;
                   processed_messages := processed_messages s |} in
    (* if (res == REDIS_OK && reply) *)
    match (if res =? REDIS_OK then reply else None) with
    | Some r =>
        if (is_REDIS_REPLY_ARRAY r && (elements r >=? 3))%bool then
          let message := element_str r 2 in
          let '(st, c, t) :=
            processMessage (ctx s) message consumer_id (call e) (state s) in
          let processed := processed_messages s + 1 in
          let current_time := clock e in
          if current_time - start_time s >=? 3 then
            (t ++ [Printf "Processed messages per second: %d\n"
                     [AInt (Z.quot processed 3)];
                   Usleep 1000],
             {| reader := rd; state := st; ctx := c;
                start_time := current_time; processed_messages := 0 |},
             false)
          else
            (t ++ [Usleep 1000],
             {| reader := rd; state := st; ctx := c;
                start_time := start_time s; processed_messages := processed |},
             false)
        else ([Usleep 1000], same, false)
    | None =>
        if res =? REDIS_ERR then
          ([Eprintf "Error reading reply: %s\n" [AStr (errstr (ctx s))]], same, true)
        else ([Usleep 1000], same, false)
    end
  else if n =? 0 then
    ([Eprintf "Connection closed by server\n" []], s, true)
  else
    ([Eprintf "Error reading from socket" []], s, true).

(** The [while (1)] loop over the turns the environment supplies. The
    result tells whether the loop was left ([true]) or is waiting in
    [read] for input the list does not have ([false]). *)
Fixpoint run_loop (consumer_id : Z) (turns : list turn_env) (s : loop_state)
    : trace * loop_state * bool :=
  match turns with
  | [] => ([], s, false)
  | e :: rest =>
      let '(t, s1, brk) := loop_turn consumer_id e s in
      if brk then (t, s1, true)
      else
        let '(t', s2, brk') := run_loop consumer_id rest s1 in
        (t ++ t', s2, brk')
  end.

(** [main]: the whole program on a command line and an environment. The
    result is the output and the exit status, if the process has ended. *)
Definition main (opts : list (ascii * string)) (env : startup_env)
    (turns : list turn_env) : trace * option Z :=
  match parse_arguments opts with
  | Exited t status => (t, Some status)
  | Goes t0 o =>
      match start env with
      | Exited t status => (t0 ++ t, Some status)
      | Goes t1 s =>
          let '(t2, s', brk) := run_loop (consumer_id o) turns s in
          if brk then
            let '(_, t3) :=
              shutdown 0 {| global_redis_context := Valid;
                            global_consumer_state := Valid |} in
            (t0 ++ t1 ++ t2 ++ t3, Some 0)
          else (t0 ++ t1 ++ t2, None)
      end
  end.
End Loop.

(** ** An executable reading of the two libraries

    Used for the concrete runs below. [Wire.loads] reads the JSON texts made
    of objects, arrays, strings without escapes, integers and the three
    literals; [Wire.dumps] writes them back compactly; [Wire.parse] reads
    the replies of the wire protocol (status, error, integer, bulk string,
    array). On these texts they agree with jansson and hiredis; any other
    text is reported as an error. *)

Module Wire.

Local Infix "+++" := String.append (at level 60, right associativity).

Definition dq : ascii := "034"%char.
Definition backslash : ascii := "092"%char.
Definition CR : ascii := "013"%char.
Definition LF : ascii := "010"%char.
Definition crlf : string := String CR (String LF EmptyString).

(** [q s] is [s] between double quotes. *)
Definition q (s : string) : string := String dq (s +++ String dq EmptyString).

Fixpoint drop (n : nat) (s : string) : string :=
  match n, s with
  | S n', String _ rest => drop n' rest
  | _, _ => s
  end.

Fixpoint strip_prefix (p s : string) : option string :=
  match p, s with
  | EmptyString, _ => Some s
  | String a p', String b s' => if Ascii.eqb a b then strip_prefix p' s' else None
  | _, _ => None
  end.

Definition is_ascii (c : ascii) : bool := Nat.ltb (nat_of_ascii c) 128.

Fixpoint all_ascii (s : string) : bool :=
  match s with
  | EmptyString => true
  | String c rest => (is_ascii c && all_ascii rest)%bool
  end.

(** *** JSON text *)

Definition json_space (c : ascii) : bool :=
  let n := nat_of_ascii c in
  (Nat.eqb n 32 || Nat.eqb n 9 || Nat.eqb n 10 || Nat.eqb n 13)%bool.

Fixpoint skip_ws (s : string) : string :=
  match s with
  | String c rest => if json_space c then skip_ws rest else s
  | EmptyString => s
  end.

(** After an opening quote: the text up to the closing quote, and what
    follows it. *)
Fixpoint read_string (s : string) : option (string * string) :=
  match s with
  | EmptyString => None
  | String c rest =>
      if Ascii.eqb c dq then Some (EmptyString, rest)
      else if (Ascii.eqb c backslash || Nat.ltb (nat_of_ascii c) 32
               || negb (is_ascii c))%bool then None
      else match read_string rest with
           | Some (body, rest') => Some (String c body, rest')
           | None => None
           end
  end.

Fixpoint read_digits (s : string) (acc : Z) (seen : bool) : option (Z * string) :=
  match s with
  | String c rest =>
      if isdigit c
      then read_digits rest (10 * acc + (Z.of_nat (nat_of_ascii c) - 48)) true
      else if seen then Some (acc, s) else None
  | EmptyString => if seen then Some (acc, s) else None
  end.

Definition read_integer (s : string) : option (Z * string) :=
  match s with
  | String "-" rest =>
      match read_digits rest 0 false with
      | Some (n, rest') => Some (- n, rest')
      | None => None
      end
  | _ => read_digits s 0 false
  end.

Fixpoint parse_value (fuel : nat) (s : string) : option (json_t * string) :=
  match fuel with
  | O => None
  | S fuel' =>
      match skip_ws s with
      | EmptyString => None
      | String c rest =>
          if Ascii.eqb c "{" then
            match skip_ws rest with
            | String "}" rest' => Some (JObject [], rest')
            | _ =>
                match parse_members fuel' rest [] with
                | Some (members, rest') => Some (JObject members, rest')
                | None => None
                end
            end
          else if Ascii.eqb c "[" then
            match skip_ws rest with
            | String "]" rest' => Some (JArray [], rest')
            | _ =>
                match parse_elems fuel' rest with
                | Some (elems, rest') => Some (JArray elems, rest')
                | None => None
                end
            end
          else if Ascii.eqb c dq then
            match read_string rest with
            | Some (body, rest') => Some (JString body, rest')
            | None => None
            end
          else
            match strip_prefix "true" (String c rest),
                  strip_prefix "false" (String c rest),
                  strip_prefix "null" (String c rest) with
            | Some rest', _, _ => Some (JTrue, rest')
            | _, Some rest', _ => Some (JFalse, rest')
            | _, _, Some rest' => Some (JNull, rest')
            | _, _, _ =>
                match read_integer (String c rest) with
                | Some (n, rest') => Some (JInteger n, rest')
                | None => None
                end
            end
      end
  end

with parse_members (fuel : nat) (s : string) (acc : list (string * json_t))
    : option (list (string * json_t) * string) :=
  match fuel with
  | O => None
  | S fuel' =>
      match skip_ws s with
      | String c rest =>
          if Ascii.eqb c dq then
            match read_string rest with
            | Some (key, rest1) =>
                match skip_ws rest1 with
                | String ":" rest2 =>
                    match parse_value fuel' rest2 with
                    | Some (v, rest3) =>
                        let acc' := members_set acc key v in
                        match skip_ws rest3 with
                        | String "," rest4 => parse_members fuel' rest4 acc'
                        | String "}" rest4 => Some (acc', rest4)
                        | _ => None
                        end
                    | None => None
                    end
                | _ => None
                end
            | None => None
            end
          else None
      | EmptyString => None
      end
  end

with parse_elems (fuel : nat) (s : string) : option (list json_t * string) :=
  match fuel with
  | O => None
  | S fuel' =>
      match parse_value fuel' s with
      | Some (v, rest) =>
          match skip_ws rest with
          | String "," rest' =>
              match parse_elems fuel' rest' with
              | Some (vs, rest'') => Some (v :: vs, rest'')
              | None => None
              end
          | String "]" rest' => Some ([v], rest')
          | _ => None
          end
      | None => None
      end
  end.

(** [json_loads(s, 0, &error)]: the root must be an array or an object
    and nothing but white space may follow it. *)
Definition loads (s : string) : loads_result :=
  match parse_value (2 * String.length s + 2) s with
  | Some (JObject members, rest) =>
      match skip_ws rest with
      | EmptyString => Loaded (JObject members)
      | _ => LoadError 1 "end of file expected"
      end
  | Some (JArray elems, rest) =>
      match skip_ws rest with
      | EmptyString => Loaded (JArray elems)
      | _ => LoadError 1 "end of file expected"
      end
  | Some _ => LoadError 1 "'[' or '{' expected"
  | None => LoadError 1 "invalid token"
  end.

Fixpoint escape (s : string) : string :=
  match s with
  | EmptyString => EmptyString
  | String c rest =>
      if (Ascii.eqb c dq || Ascii.eqb c backslash)%bool
      then String backslash (String c (escape rest))
      else String c (escape rest)
  end.

Definition decimal (n : Z) : string := NilZero.string_of_int (Z.to_int n).

Fixpoint dumps (j : json_t) : string :=
  match j with
  | JNull => "null"
  | JTrue => "true"
  | JFalse => "false"
  | JInteger n => decimal n
  | JReal text => text
  | JString s => q (escape s)
  | JArray elems =>
      "[" +++
      (fix items (l : list json_t) : string :=
         match l with
         | [] => EmptyString
         | x :: l' =>
             dumps x +++
             match l' with [] => EmptyString | _ :: _ => "," +++ items l' end
         end) elems +++ "]"
  | JObject members =>
      "{" +++
      (fix items (l : list (string * json_t)) : string :=
         match l with
         | [] => EmptyString
         | (k, v) :: l' =>
             q (escape k) +++ ":" +++ dumps v +++
             match l' with [] => EmptyString | _ :: _ => "," +++ items l' end
         end) members +++ "}"
  end.

#[global] Instance jansson : Jansson :=
  {| json_loads := loads;
     utf8_check_string := all_ascii;
     json_dumps_compact := dumps |}.

(** *** Replies on the wire *)

(** The text before the first CR LF and the text after it. *)
Fixpoint read_line (s : string) : option (string * string) :=
  match s with
  | EmptyString => None
  | String c rest =>
      match strip_prefix crlf s with
      | Some rest' => Some (EmptyString, rest')
      | None =>
          match read_line rest with
          | Some (line, rest') => Some (String c line, rest')
          | None => None
          end
      end
  end.

Definition line_integer (line : string) : option Z :=
  match read_integer line with
  | Some (n, EmptyString) => Some n
  | _ => None
  end.

Fixpoint parse (fuel : nat) (s : string) : parse_result :=
  match fuel with
  | O => ProtocolError
  | S fuel' =>
      match s with
      | EmptyString => Incomplete
      | String c body =>
          match read_line body with
          | None =>
              if (Ascii.eqb c "+" || Ascii.eqb c "-" || Ascii.eqb c ":"
                  || Ascii.eqb c "$" || Ascii.eqb c "*")%bool
              then Incomplete else ProtocolError
          | Some (line, rest) =>
              if Ascii.eqb c "+" then Complete (ReplyStatus line) rest
              else if Ascii.eqb c "-" then Complete (ReplyError line) rest
              else if Ascii.eqb c ":" then
                match line_integer line with
                | Some n => Complete (ReplyInteger n) rest
                | None => ProtocolError
                end
              else if Ascii.eqb c "$" then
                match line_integer line with
                | Some n =>
                    if n =? -1 then Complete ReplyNil rest
                    else if n <? 0 then ProtocolError
                    else if Nat.ltb (String.length rest) (Z.to_nat n + 2) then Incomplete
                    else
                      match strip_prefix crlf (drop (Z.to_nat n) rest) with
                      | Some rest' =>
                          Complete (ReplyString (substring 0 (Z.to_nat n) rest)) rest'
                      | None => ProtocolError
                      end
                | None => ProtocolError
                end
              else if Ascii.eqb c "*" then
                match line_integer line with
                | Some n =>
                    if n =? -1 then Complete ReplyNil rest
                    else if n <? 0 then ProtocolError
                    else
                      (fix items (k : nat) (s' : string) (acc : list redisReply)
                         : parse_result :=
                         match k with
                         | O => Complete (ReplyArray (rev acc)) s'
                         | S k' =>
                             match parse fuel' s' with
                             | Complete r s'' => items k' s'' (r :: acc)
                             | other => other
                             end
                         end) (Z.to_nat n) rest []
                | None => ProtocolError
                end
              else ProtocolError
          end
      end
  end.

#[global] Instance hiredis : Hiredis :=
  {| reader_parse := fun s => parse (String.length s + 1) s |}.

(** A bulk string, and the frame a publication arrives in. *)
Definition bulk (s : string) : string :=
  "$" +++ decimal (Z.of_nat (String.length s)) +++ crlf +++ s +++ crlf.

Definition published (payload : string) : string :=
  "*3" +++ crlf +++ bulk "message" +++ bulk PUBLISH_CHANNEL +++ bulk payload.
End Wire.

(** ** Observations on runs *)

(** The fields of a record sent for appending: [XADD key pos f1 v1 f2 v2 ...]. *)
Fixpoint field_pairs (l : list arg) : list (arg * arg) :=
  match l with
  | f :: v :: rest => (f, v) :: field_pairs rest
  | _ => []
  end.

Definition stream_record (e : event) : option (list (arg * arg)) :=
  match e with
  | RedisCommand (AStr cmd :: _ :: _ :: fields) =>
      if String.eqb cmd "XADD" then Some (field_pairs fields) else None
  | _ => None
  end.

(** The records a run sends to the stream, in order (its publish attempts). *)
Fixpoint appended_records (t : trace) : list (list (arg * arg)) :=
  match t with
  | [] => []
  | e :: rest =>
      match stream_record e with
      | Some r => r :: appended_records rest
      | None => appended_records rest
      end
  end.

Definition record_has_field (r : list (arg * arg)) (name : string) : bool :=
  existsb (fun fv => arg_eqb (fst fv) (AStr name)) r.

(** The two-field record of the [XADD] in [processMessage]. *)
Definition two_fields (id : string) (consumer_id : Z) : list (arg * arg) :=
  [(AStr "message_id", AStr id); (AStr "consumer_id", AInt consumer_id)].

Definition is_received (e : event) : bool :=
  match e with
  | Printf fmt _ => String.eqb fmt "Received message: %s\n"
  | _ => false
  end.

Definition is_warning (e : event) : bool :=
  match e with
  | Eprintf fmt _ =>
      String.eqb fmt
        "Warning: Processed message limit reached for consumer. Skipping adding new IDs.\n"
  | _ => false
  end.

Definition SKIPPED (consumer_id : Z) (id : string) : event :=
  Printf "Consumer %d skipping already processed message: %s\n"
         [AInt consumer_id; AStr id].

Definition state_after (r : consumerState * redisContext * trace) : consumerState :=
  fst (fst r).

Definition trace_of {A : Type} (r : A * trace) : trace := snd r.

Section Decode.
Context {J : Jansson}.

(** The identifier [parseMessage] stores when it returns 0. *)
Definition decode (message : option string) : option string :=
  let '(ret, m, _) := parseMessage message {| message_id := EmptyString |} in
  if ret =? 0 then Some (message_id m) else None.

(** The output of a call up to and including the publish attempt. *)
Definition attempt_prefix (message : option string) (id modified : string)
    (consumer_id : Z) : trace :=
  [Printf "Received message: %s\n" [str_arg message];
   Printf "Parsed message_id: %s\n" [AStr id];
   Printf "Processed message: %s\n" [AStr modified];
   XADD id consumer_id].

(** The object the call serializes for a decoded message. *)
Definition augmented (members : list (string * json_t)) (id : string)
    (consumer_id : Z) : option json_t :=
  snd (json_object_set_new
         (snd (json_object_set_new (Some (JObject members)) "message_id" (json_string id)))
         "consumer_id" (json_integer consumer_id)).

End Decode.

(** A published-message frame, as the loop tests it. *)
Definition is_published_frame (r : redisReply) : bool :=
  (is_REDIS_REPLY_ARRAY r && (elements r >=? 3))%bool.

(** A cache filled to its capacity with the identifiers [0], [1], ... *)
Definition full_cache : consumerState :=
  {| processed_message_ids :=
       map (fun n => Wire.decimal (Z.of_nat n)) (seq 0 (Z.to_nat MAX_PROCESSED_MSGS)) |}.

Definition no_error : redisContext := {| err := 0; errstr := EmptyString; fd := 3 |}.

Definition ok_reply (r : redisReply) : command_result :=
  {| reply := Some r; err_after := 0; errstr_after := EmptyString |}.

(** REDIS_ERR_IO with no reply. *)
Definition io_failure : command_result :=
  {| reply := None; err_after := 1; errstr_after := "Connection reset by peer" |}.

(** ** Concrete inputs *)

(** The payload [{"message_id":"<id>"}]. *)
Definition payload (id : string) : string :=
  String.append "{" (String.append (Wire.q "message_id")
    (String.append ":" (String.append (Wire.q id) "}"))).

(** The payload [{"message_id":"m","extra":1}]. *)
Definition payload_with_extra : string :=
  String.append "{" (String.append (Wire.q "message_id")
    (String.append ":" (String.append (Wire.q "m")
      (String.append "," (String.append (Wire.q "extra") ":1}"))))).

Definition env_published (tail : string) : call_env :=
  {| stack_message_id := "stale"; xadd := ok_reply (ReplyString "1-0");
     heap_tail := tail |}.

Definition env_failed : call_env :=
  {| stack_message_id := "stale"; xadd := io_failure; heap_tail := EmptyString |}.

(** Two identifiers of 37 and 38 bytes with the same first 36. *)
Definition uuid : string := "aaaaaaaa-aaaa-aaaa-aaaa-aaaaaaaaaaaa".
Definition long_id_1 : string := String.append uuid "1".
Definition long_id_2 : string := String.append uuid "22".

(** The reader's buffer after the [redisReaderFeed] of a turn. *)
Definition fed (e : turn_env) (s : loop_state) : string :=
  buf (redisReaderFeed (reader s) (messages e) (read_n e)).

Definition turn_trace (r : trace * loop_state * bool) : trace := fst (fst r).
Definition turn_state (r : trace * loop_state * bool) : loop_state := snd (fst r).
Definition turn_break (r : trace * loop_state * bool) : bool := snd r.

(** A read that delivers [bytes], at clock [now]. *)
Definition turn_reading (bytes : string) (now : Z) (env : call_env) : turn_env :=
  {| read_n := Z.of_nat (String.length bytes); messages := bytes;
     clock := now; call := env |}.

(** Two publications arriving in one read. *)
Definition two_frames : string :=
  String.append (Wire.published (payload "m1")) (Wire.published (payload "m2")).

Definition loop_start (st : consumerState) : loop_state :=
  {| reader := redisReaderCreate; state := st; ctx := no_error;
     start_time := 0; processed_messages := 0 |}.

(** A start in which connection and group creation succeed and the broker
    answers [SUBSCRIBE] with [r]. *)
Definition startup_with (r : command_result) : startup_env :=
  {| connect := Some no_error; xgroup := ok_reply (ReplyStatus "OK");
     reader_created := true; subscribe := r; start_clock := 0 |}.

Definition subscribe_ack (channel : string) : redisReply :=
  ReplyArray [ReplyString "subscribe"; ReplyString channel; ReplyInteger 1].

Definition all_valid : globals :=
  {| global_redis_context := Valid; global_consumer_state := Valid |}.

(** ** freeConsumerState

    The blocks handed to [free], in order: the cell of every stored
    identifier, then the array, then the struct. Nothing for a null
    pointer. *)

Inductive freed_block : Type :=
| IdCell (i : nat)          (* state->processed_message_ids[i] *)
| IdArray                   (* state->processed_message_ids *)
| StateStruct.              (* state *)

Definition freeConsumerState (state : option consumerState) : list freed_block :=
  match state with
  | None => []
  | Some st =>
      map IdCell (seq 0 (List.length (processed_message_ids st)))
      ++ [IdArray; StateStruct]
  end.

(** ** Further observations *)

Definition ctx_after (r : consumerState * redisContext * trace) : redisContext :=
  snd (fst r).

Definition is_report (e : event) : bool :=
  match e with
  | Printf fmt _ => String.eqb fmt "Processed messages per second: %d\n"
  | _ => false
  end.

Definition is_RedisReaderFree (e : event) : bool :=
  match e with RedisReaderFree => true | _ => false end.

Definition is_Exit (e : event) : bool :=
  match e with Exit _ => true | _ => false end.

(** A three-element frame whose third element is the integer 5. *)
Definition frame_with_integer : string :=
  String.append "*3" (String.append Wire.crlf
    (String.append (Wire.bulk "message")
       (String.append (Wire.bulk PUBLISH_CHANNEL)
          (String.append ":5" Wire.crlf)))).

(** The first 20 bytes of a publication. *)
Definition partial_frame : string :=
  substring 0 20 (Wire.published (payload uuid)).

Definition end_of_stream : turn_env :=
  {| read_n := 0; messages := EmptyString; clock := 0; call := env_failed |}.

Section Sequences.
Context {J : Jansson}.

(** Successive calls of [processMessage], as the loop makes them: each
    call works on the cache and the connection the previous one left. *)
Fixpoint process_all (c : redisContext) (cid : Z)
    (calls : list (option string * call_env)) (st : consumerState)
    : consumerState * redisContext * trace :=
  match calls with
  | [] => (st, c, [])
  | (message, env) :: rest =>
      let '(st1, c1, t1) := processMessage c message cid env st in
      let '(st2, c2, t2) := process_all c1 cid rest st1 in
      (st2, c2, t1 ++ t2)
  end.

(** The call decodes to [id], its append is accepted and the stored copy
    is followed by a zero byte. *)
Definition forwards (call : option string * call_env) (id : string) : Prop :=
  decode (fst call) = Some id /\
  command_failed (xadd (snd call)) = false /\
  heap_tail (snd call) = EmptyString.

End Sequences.

(** The events that release a resource or end the process. *)
Definition is_final (e : event) : bool :=
  match e with
  | RedisFree | RedisReaderFree | FreeConsumerState | Exit _ => true
  | _ => false
  end.

Definition quiet (t : trace) : bool := forallb (fun e => negb (is_final e)) t.

(** The startup stages, read off the environment: the connection is
    established; the reader exists. *)
Definition connected (env : startup_env) : bool :=
  match connect env with Some c => err c =? 0 | None => false end.

Definition reader_made (env : startup_env) : bool :=
  (connected env && negb (command_failed (xgroup env)) && reader_created env)%bool.

Section TurnObservations.
Context {H : Hiredis}.

(** The turn hands a published-message frame to [processMessage]. *)
Definition hands_frame (e : turn_env) (s : loop_state) : bool :=
  ((read_n e >? 0) &&
   match reader_parse (fed e s) with
   | Complete frame _ => is_published_frame frame
   | _ => false
   end)%bool.

End TurnObservations.





(** Case analysis on the scrutinee of a [match] in the goal. *)
Ltac break_match :=
  match goal with
  | |- context [match ?x with _ => _ end] => destruct x eqn:?
  end.


(** * Properties *)

(** ** The dedup cache *)

Lemma substring_whole (s : string) : substring 0 (String.length s) s = s.
Proof. induction s as [|c s IH]; simpl; [reflexivity | now rewrite IH]. Qed.

Lemma append_empty_r (s : string) : String.append s EmptyString = s.
Proof. induction s as [|c s IH]; simpl; [reflexivity | now rewrite IH]. Qed.

Lemma strncpy_terminated (s : string) :
  strncpy_unterminated s (String.length s) EmptyString = s.
Proof. unfold strncpy_unterminated. now rewrite substring_whole, append_empty_r. Qed.

Lemma scan_ids_bit (ids : list string) (id : string) :
  scan_ids ids id = 0 \/ scan_ids ids id = 1.
Proof.
  induction ids as [|x ids IH]; simpl; [now left |].
  destruct (String.eqb x id); [now right | exact IH].
Qed.

Lemma scan_ids_app (a b : list string) (id : string) :
  scan_ids (a ++ b) id = if scan_ids a id =? 1 then 1 else scan_ids b id.
Proof.
  induction a as [|x a IH]; simpl; [reflexivity |].
  destruct (String.eqb x id); [reflexivity | exact IH].
Qed.

Lemma scan_ids_found_app (a b : list string) (id : string) :
  scan_ids a id = 1 -> scan_ids (a ++ b) id = 1.
Proof. intros Hf. now rewrite scan_ids_app, Hf. Qed.

(** Below capacity an insertion stores one more cell and logs nothing. *)
Lemma addProcessedMessage_below (st : consumerState) (id tail : string) :
  processed_message_count st < MAX_PROCESSED_MSGS ->
  addProcessedMessage st id tail =
    ({| processed_message_ids :=
          processed_message_ids st ++
          [strncpy_unterminated id (String.length id) tail] |}, []).
Proof.
  intros Hlt. unfold addProcessedMessage.
  apply Z.ltb_lt in Hlt. now rewrite Hlt.
Qed.

(** At capacity an insertion changes nothing and logs the warning once. *)
Lemma addProcessedMessage_full (st : consumerState) (id tail : string) :
  MAX_PROCESSED_MSGS <= processed_message_count st ->
  addProcessedMessage st id tail = (st, [CAPACITY_WARNING]).
Proof.
  intros Hge. unfold addProcessedMessage.
  apply Z.ltb_ge in Hge. now rewrite Hge.
Qed.

Lemma addProcessedMessage_count (st : consumerState) (id tail : string) :
  processed_message_count st <= MAX_PROCESSED_MSGS ->
  processed_message_count (fst (addProcessedMessage st id tail)) <= MAX_PROCESSED_MSGS.
Proof.
  intros Hle. unfold addProcessedMessage.
  destruct (processed_message_count st <? MAX_PROCESSED_MSGS) eqn:Hlt; simpl; [| exact Hle].
  apply Z.ltb_lt in Hlt. unfold processed_message_count in *. simpl.
  rewrite length_app. simpl. lia.
Qed.

(** Whatever was found before an insertion is found after it. *)
Lemma addProcessedMessage_keeps (st : consumerState) (id tail other : string) :
  isMessageProcessed st other = 1 ->
  isMessageProcessed (fst (addProcessedMessage st id tail)) other = 1.
Proof.
  intros Hf. unfold addProcessedMessage.
  destruct (processed_message_count st <? MAX_PROCESSED_MSGS); simpl; [| exact Hf].
  unfold isMessageProcessed in *. simpl. now apply scan_ids_found_app.
Qed.

(** An identifier whose copy is followed by a zero byte is found. *)
Lemma addProcessedMessage_found (st : consumerState) (id : string) :
  processed_message_count st < MAX_PROCESSED_MSGS ->
  isMessageProcessed (fst (addProcessedMessage st id EmptyString)) id = 1.
Proof.
  intros Hlt. rewrite addProcessedMessage_below by exact Hlt.
  unfold isMessageProcessed. simpl. rewrite scan_ids_app, strncpy_terminated.
  simpl. rewrite String.eqb_refl. now destruct (scan_ids _ id =? 1).
Qed.

(** No sequence of insertions takes the count past the capacity. *)
Lemma add_all_count (ins : list (string * string)) (st : consumerState) :
  processed_message_count st <= MAX_PROCESSED_MSGS ->
  processed_message_count (fst (add_all st ins)) <= MAX_PROCESSED_MSGS.
Proof.
  revert st. induction ins as [|[id tail] ins IH]; intros st Hle; simpl; [exact Hle |].
  pose proof (addProcessedMessage_count st id tail Hle) as H1.
  destruct (addProcessedMessage st id tail) as [st1 t1]. simpl in H1.
  specialize (IH st1 H1). destruct (add_all st1 ins) as [st2 t2]. exact IH.
Qed.

Lemma add_all_keeps (ins : list (string * string)) (st : consumerState) (other : string) :
  isMessageProcessed st other = 1 ->
  isMessageProcessed (fst (add_all st ins)) other = 1.
Proof.
  revert st. induction ins as [|[id tail] ins IH]; intros st Hf; simpl; [exact Hf |].
  pose proof (addProcessedMessage_keeps st id tail other Hf) as H1.
  destruct (addProcessedMessage st id tail) as [st1 t1]. simpl in H1.
  specialize (IH st1 H1). destruct (add_all st1 ins) as [st2 t2]. exact IH.
Qed.

(** Insertions into a full cache: no change, one warning each. *)
Lemma add_all_full (ins : list (string * string)) (st : consumerState) :
  MAX_PROCESSED_MSGS <= processed_message_count st ->
  fst (add_all st ins) = st /\
  count_events is_warning (snd (add_all st ins)) = List.length ins.
Proof.
  intros Hge. induction ins as [|[id tail] ins [IH1 IH2]]; simpl; [now split |].
  rewrite addProcessedMessage_full by exact Hge.
  destruct (add_all st ins) as [st2 t2]. simpl in *. split; [exact IH1 |].
  unfold count_events in *. simpl. now rewrite IH2.
Qed.

(** C6, at the input where it fails: one insertion of the identifier [a]
    into the empty cache, the byte after the copy being [x]. The insertion
    is stored (count 1, no warning), yet the lookup of [a] reports 0: the
    cell reads [ax], because [strncpy] was given [strlen] bytes and wrote no
    terminator. *)
Theorem C6_stored_identifier_not_found :
  let r := addProcessedMessage createConsumerState "a" "x" in
  processed_message_count (fst r) = 1 /\
  snd r = [] /\
  processed_message_ids (fst r) = ["ax"] /\
  isMessageProcessed (fst r) "a" = 0.
Proof. vm_compute. repeat split; reflexivity. Qed.

(** ** processMessage *)

Section ProcessMessage.
Context {J : Jansson}.

Lemma json_object_set_new_object (members : list (string * json_t)) (key : string)
    (value : option json_t) :
  exists members', snd (json_object_set_new (Some (JObject members)) key value)
                   = Some (JObject members').
Proof.
  destruct value as [v|]; simpl; eexists; reflexivity.
Qed.

(** A message decodes exactly when it loads as an object whose [message_id]
    member is a string; [parseMessage] then stores the first 36 bytes. *)
Lemma decode_inv (message : option string) (id : string) :
  decode message = Some id ->
  exists members value,
    json_loads_buf message = Loaded (JObject members) /\
    members_get members "message_id" = Some (JString value) /\
    id = substring 0 36 value.
Proof.
  unfold decode, parseMessage. intros Hd.
  destruct (json_loads_buf message) as [root|line text]; [| discriminate Hd].
  destruct root as [ | | | n | tx | s | elems | members]; try discriminate Hd.
  simpl in Hd.
  destruct (members_get members "message_id")
    as [[ | | | n | tx | s | elems | ms]|] eqn:Hg; try discriminate Hd.
  simpl in Hd. injection Hd as Hid. exists members, s.
  repeat split; [exact Hg | symmetry; exact Hid].
Qed.

Lemma decode_parseMessage (message : option string) (id : string) (m0 : Message) :
  decode message = Some id ->
  parseMessage message m0 = (0, {| message_id := id |}, []).
Proof.
  intros Hd. destruct (decode_inv _ _ Hd) as (members & value & Hl & Hg & Hid).
  unfold parseMessage. rewrite Hl. simpl. rewrite Hg. subst id. reflexivity.
Qed.

Lemma augmented_dumps (members : list (string * json_t)) (id : string) (cid : Z) :
  exists modified, json_dumps (augmented members id cid) = Some modified.
Proof.
  unfold augmented.
  destruct (json_object_set_new_object members "message_id" (json_string id)) as [m1 H1].
  rewrite H1.
  destruct (json_object_set_new_object m1 "consumer_id" (json_integer cid)) as [m2 H2].
  rewrite H2. simpl. eexists. reflexivity.
Qed.

(** A decoded message whose identifier is not found: the call reaches the
    [XADD], and what follows depends on its outcome alone. *)
Lemma processMessage_novel (c : redisContext) (message : option string) (cid : Z)
    (env : call_env) (st : consumerState) (id : string)
    (members : list (string * json_t)) :
  decode message = Some id ->
  json_loads_buf message = Loaded (JObject members) ->
  isMessageProcessed st id = 0 ->
  exists modified,
    json_dumps (augmented members id cid) = Some modified /\
    processMessage c message cid env st =
      if command_failed (xadd env) then
        (st, after_command c (xadd env),
         attempt_prefix message id modified cid ++
         [Eprintf "Error storing processed message in Redis: %s\n"
            [AStr (errstr_after (xadd env))]])
      else
        (fst (addProcessedMessage st id (heap_tail env)),
         after_command c (xadd env),
         attempt_prefix message id modified cid ++
         snd (addProcessedMessage st id (heap_tail env))).
Proof.
  intros Hd Hl Hnew.
  destruct (augmented_dumps members id cid) as [modified Hm].
  exists modified. split; [exact Hm |].
  unfold processMessage.
  rewrite (decode_parseMessage _ _ _ Hd). simpl message_id.
  rewrite Hnew, Hl. simpl loaded_root. cbv zeta.
  change (0 =? 0) with true. cbv iota.
  fold (augmented members id cid). rewrite Hm.
  destruct (command_failed (xadd env)); [reflexivity |].
  destruct (addProcessedMessage st id (heap_tail env)) as [st' t']. reflexivity.
Qed.

(** A decoded message whose identifier is found: nothing but the skip. *)
Lemma processMessage_skip (c : redisContext) (message : option string) (cid : Z)
    (env : call_env) (st : consumerState) (id : string) :
  decode message = Some id ->
  isMessageProcessed st id = 1 ->
  processMessage c message cid env st =
    (st, c,
     [Printf "Received message: %s\n" [str_arg message];
      Printf "Parsed message_id: %s\n" [AStr id];
      SKIPPED cid id]).
Proof.
  intros Hd Hf. unfold processMessage.
  rewrite (decode_parseMessage _ _ _ Hd). simpl message_id. now rewrite Hf.
Qed.

Lemma appended_records_app (a b : trace) :
  appended_records (a ++ b) = appended_records a ++ appended_records b.
Proof.
  induction a as [|e a IH]; simpl; [reflexivity |].
  destruct (stream_record e); simpl; now rewrite IH.
Qed.

Lemma addProcessedMessage_no_record (st : consumerState) (id tail : string) :
  appended_records (snd (addProcessedMessage st id tail)) = [].
Proof.
  unfold addProcessedMessage.
  now destruct (processed_message_count st <? MAX_PROCESSED_MSGS).
Qed.

End ProcessMessage.

Section PipelineClaims.
Context {J : Jansson}.

Lemma appended_records_attempt (message : option string) (id modified : string) (cid : Z) :
  appended_records (attempt_prefix message id modified cid) = [two_fields id cid].
Proof. reflexivity. Qed.

(** The publish attempts of a call on a decoded, novel message: exactly one,
    whatever its outcome. *)
Lemma processMessage_novel_records (c : redisContext) (message : option string)
    (cid : Z) (env : call_env) (st : consumerState) (id : string) :
  decode message = Some id ->
  isMessageProcessed st id = 0 ->
  appended_records (trace_of (processMessage c message cid env st)) = [two_fields id cid].
Proof.
  intros Hd Hnew. destruct (decode_inv _ _ Hd) as (members & value & Hl & _ & _).
  destruct (processMessage_novel c message cid env st id members Hd Hl Hnew)
    as (modified & _ & Heq).
  rewrite Heq. unfold trace_of.
  destruct (command_failed (xadd env)); cbn [snd];
    rewrite appended_records_app, appended_records_attempt.
  - reflexivity.
  - now rewrite addProcessedMessage_no_record.
Qed.

Lemma processMessage_novel_state (c : redisContext) (message : option string)
    (cid : Z) (env : call_env) (st : consumerState) (id : string) :
  decode message = Some id ->
  isMessageProcessed st id = 0 ->
  state_after (processMessage c message cid env st) =
    if command_failed (xadd env) then st
    else fst (addProcessedMessage st id (heap_tail env)).
Proof.
  intros Hd Hnew. destruct (decode_inv _ _ Hd) as (members & value & Hl & _ & _).
  destruct (processMessage_novel c message cid env st id members Hd Hl Hnew)
    as (modified & _ & Heq).
  rewrite Heq. unfold state_after. now destruct (command_failed (xadd env)).
Qed.

(** C1. For a decoded message whose identifier is not in the cache, one
    publish is attempted; the cache after the call is the cache before it
    when the append failed (no reply, or a connection-level error), and the
    result of [addProcessedMessage] otherwise, so the cache changes only
    after a successful append. After a failure any later message carrying
    the same identifier is again not found and a publish is attempted for it
    again. *)
Theorem C1_commit_only_after_publish (c : redisContext) (message : option string)
    (cid : Z) (env : call_env) (st : consumerState) (id : string) :
  decode message = Some id ->
  isMessageProcessed st id = 0 ->
  let r := processMessage c message cid env st in
  appended_records (trace_of r) = [two_fields id cid] /\
  (command_failed (xadd env) = true ->
     state_after r = st /\
     forall c2 message2 cid2 env2,
       decode message2 = Some id ->
       isMessageProcessed (state_after r) id = 0 /\
       appended_records
         (trace_of (processMessage c2 message2 cid2 env2 (state_after r)))
       = [two_fields id cid2]) /\
  (command_failed (xadd env) = false ->
     state_after r = fst (addProcessedMessage st id (heap_tail env))) /\
  (state_after r <> st -> command_failed (xadd env) = false).
Proof.
  intros Hd Hnew r. subst r.
  pose proof (processMessage_novel_state c message cid env st id Hd Hnew) as Hst.
  split; [now apply processMessage_novel_records |].
  split; [| split].
  - intros Hfail. rewrite Hfail in Hst. split; [exact Hst |].
    intros c2 message2 cid2 env2 Hd2. rewrite Hst. split; [exact Hnew |].
    now apply processMessage_novel_records.
  - intros Hok. now rewrite Hok in Hst.
  - intros Hne. destruct (command_failed (xadd env)); [| reflexivity].
    now elim Hne.
Qed.

End PipelineClaims.

(** C1 at a concrete input: the publish of [{"message_id":"m"}] fails, the
    cache stays empty, and the identifier is published again when it comes
    back. *)
Lemma C1_commit_only_after_publish_witness :
  decode (Some (payload "m")) = Some "m" /\
  isMessageProcessed createConsumerState "m" = 0 /\
  state_after (processMessage no_error (Some (payload "m")) 2 env_failed
                 createConsumerState) = createConsumerState.
Proof.
  split; [reflexivity | split; [reflexivity |]].
  apply (C1_commit_only_after_publish no_error (Some (payload "m")) 2 env_failed
           createConsumerState "m"); reflexivity.
Defined.

(** ** Frames that do not decode *)

Section Undecodable.
Context {J : Jansson}.

(** A payload that is not JSON at all: no publish attempt and the cache is
    left as it was (the call ends at the failed serialization, or at the
    skip when the stale identifier happens to be in the cache). *)
Lemma processMessage_unparseable (c : redisContext) (message : option string)
    (cid : Z) (env : call_env) (st : consumerState) (line : Z) (text : string) :
  json_loads_buf message = LoadError line text ->
  appended_records (trace_of (processMessage c message cid env st)) = [] /\
  state_after (processMessage c message cid env st) = st.
Proof.
  intros Hl. unfold processMessage, parseMessage. rewrite Hl. simpl.
  destruct (isMessageProcessed st (stack_message_id env) =? 0); simpl;
    [| now split].
  destruct (json_string (stack_message_id env)); simpl; now split.
Qed.

(** A payload that is a JSON object without a string [message_id]: the
    failure is printed, and the call goes on with the bytes its local
    [parsed_message] happened to hold. When these are not in the cache a
    record carrying them is sent to the stream. *)
Lemma processMessage_undecoded_object (c : redisContext) (message : option string)
    (cid : Z) (env : call_env) (st : consumerState)
    (members : list (string * json_t)) :
  json_loads_buf message = Loaded (JObject members) ->
  decode message = None ->
  isMessageProcessed st (stack_message_id env) = 0 ->
  appended_records (trace_of (processMessage c message cid env st))
  = [two_fields (stack_message_id env) cid].
Proof.
  intros Hl Hd Hnew. unfold decode, parseMessage in Hd. rewrite Hl in Hd. simpl in Hd.
  unfold processMessage, parseMessage. rewrite Hl. simpl.
  destruct (members_get members "message_id")
    as [[ | | | n | tx | s | elems | ms]|] eqn:Hg; try discriminate Hd;
    simpl; rewrite Hnew; simpl;
    destruct (json_string (stack_message_id env)); simpl;
    destruct (command_failed (xadd env)); simpl;
    try reflexivity;
    destruct (addProcessedMessage st (stack_message_id env) (heap_tail env)) eqn:Ha;
    simpl; pose proof (addProcessedMessage_no_record st (stack_message_id env)
                         (heap_tail env)) as Hn;
    rewrite Ha in Hn; simpl in Hn; rewrite Hn; reflexivity.
Qed.

End Undecodable.

(** C2, at the input where it fails: the frame payload is the JSON object
    [{}] (no [message_id]), the cache is empty, the bytes left in the local
    buffer read [stale] and the broker accepts the append. The frame does
    not decode, the failure is printed, and the call still sends a record
    for [stale] to the stream and stores [stale] in the cache. *)
Theorem C2_undecoded_frame_is_published :
  let r := processMessage no_error (Some "{}") 2 (env_published EmptyString)
             createConsumerState in
  decode (Some "{}") = None /\
  In (Eprintf "Error: 'message_id' is missing or not a string\n" []) (trace_of r) /\
  In (Printf "Failed to parse the JSON\n" []) (trace_of r) /\
  appended_records (trace_of r) = [two_fields "stale" 2] /\
  processed_message_ids (state_after r) = ["stale"].
Proof.
  vm_compute. repeat split; auto 10.
Qed.

(** ** The record sent to the stream *)

Lemma members_get_set_same (members : list (string * json_t)) (key : string)
    (value : json_t) :
  members_get (members_set members key value) key = Some value.
Proof.
  induction members as [|[k v] members IH]; simpl.
  - now rewrite String.eqb_refl.
  - destruct (String.eqb k key) eqn:Hk; simpl; rewrite Hk; [reflexivity | exact IH].
Qed.

Lemma members_get_set_other (members : list (string * json_t)) (key other : string)
    (value : json_t) :
  other <> key ->
  members_get (members_set members key value) other = members_get members other.
Proof.
  intros Hne. induction members as [|[k v] members IH]; simpl.
  - destruct (String.eqb_spec key other) as [He|_]; [now elim Hne | reflexivity].
  - destruct (String.eqb_spec k key) as [He|Hk]; simpl.
    + subst k. destruct (String.eqb_spec key other) as [He|_]; [now elim Hne | reflexivity].
    + destruct (String.eqb k other); [reflexivity | exact IH].
Qed.

Section StreamRecord.
Context {J : Jansson}.

Lemma decode_of_members (message : option string) (members : list (string * json_t))
    (value : string) :
  json_loads_buf message = Loaded (JObject members) ->
  members_get members "message_id" = Some (JString value) ->
  decode message = Some (substring 0 36 value).
Proof.
  intros Hl Hg. unfold decode, parseMessage. rewrite Hl. simpl. now rewrite Hg.
Qed.

(** The object that is serialized: the input members with [message_id]
    overwritten (when the identifier passes the UTF-8 check of
    [json_string]) and [consumer_id] set. *)
Lemma augmented_members (members : list (string * json_t)) (id : string) (cid : Z) :
  augmented members id cid =
    Some (JObject
            (members_set
               (if utf8_check_string id
                then members_set members "message_id" (JString id)
                else members)
               "consumer_id" (JInteger cid))).
Proof.
  unfold augmented, json_string. now destruct (utf8_check_string id).
Qed.

(** C4, as the code has it. For a decoded message that is not a duplicate,
    the record sent to the stream has exactly the two fields [message_id]
    (the decoded identifier) and [consumer_id]. The input object with
    [consumer_id] set, [message_id] overwritten by the decoded identifier
    and every other member kept is serialized compactly, and that text is
    printed as the processed message; it is not part of the record. *)
Theorem C4_record_has_two_fields (c : redisContext) (message : option string)
    (cid : Z) (env : call_env) (st : consumerState) (id : string)
    (members : list (string * json_t)) :
  decode message = Some id ->
  json_loads_buf message = Loaded (JObject members) ->
  isMessageProcessed st id = 0 ->
  let r := processMessage c message cid env st in
  appended_records (trace_of r) = [two_fields id cid] /\
  exists aug,
    augmented members id cid = Some (JObject aug) /\
    In (Printf "Processed message: %s\n" [AStr (json_dumps_compact (JObject aug))])
       (trace_of r) /\
    members_get aug "consumer_id" = Some (JInteger cid) /\
    (utf8_check_string id = true -> members_get aug "message_id" = Some (JString id)) /\
    (forall k, k <> "message_id" -> k <> "consumer_id" ->
               members_get aug k = members_get members k).
Proof.
  intros Hd Hl Hnew r. subst r.
  split; [now apply processMessage_novel_records |].
  destruct (processMessage_novel c message cid env st id members Hd Hl Hnew)
    as (modified & Hm & Heq).
  rewrite augmented_members in Hm. simpl in Hm. injection Hm as Hm.
  eexists. split; [apply augmented_members |].
  split; [| split; [| split]].
  - rewrite Heq. unfold trace_of, attempt_prefix. rewrite Hm.
    destruct (command_failed (xadd env)); cbn [snd]; apply in_or_app; left;
      simpl; auto.
  - apply members_get_set_same.
  - intros Hu. rewrite Hu. rewrite members_get_set_other by discriminate.
    apply members_get_set_same.
  - intros k Hk1 Hk2. rewrite members_get_set_other by exact Hk2.
    destruct (utf8_check_string id); [| reflexivity].
    now rewrite members_get_set_other by exact Hk1.
Qed.

(** C10, as the code has it. [parseMessage] keeps the first 36 bytes of the
    [message_id] string. When two messages carry identifiers with the same
    first 36 bytes, the first is forwarded while the cache is below its
    capacity, and the stored copy is followed by a zero byte, the second is
    skipped as already processed: no record is sent and the cache is
    unchanged. *)
Theorem C10_truncated_identifiers_collide (c1 c2 : redisContext)
    (message1 message2 : option string) (cid1 cid2 : Z) (env1 env2 : call_env)
    (st : consumerState) (members1 members2 : list (string * json_t))
    (value1 value2 : string) :
  json_loads_buf message1 = Loaded (JObject members1) ->
  members_get members1 "message_id" = Some (JString value1) ->
  json_loads_buf message2 = Loaded (JObject members2) ->
  members_get members2 "message_id" = Some (JString value2) ->
  value1 <> value2 ->
  substring 0 36 value1 = substring 0 36 value2 ->
  isMessageProcessed st (substring 0 36 value1) = 0 ->
  processed_message_count st < MAX_PROCESSED_MSGS ->
  command_failed (xadd env1) = false ->
  heap_tail env1 = EmptyString ->
  let id := substring 0 36 value1 in
  decode message1 = Some id /\
  decode message2 = Some id /\
  let r1 := processMessage c1 message1 cid1 env1 st in
  appended_records (trace_of r1) = [two_fields id cid1] /\
  let r2 := processMessage c2 message2 cid2 env2 (state_after r1) in
  In (SKIPPED cid2 id) (trace_of r2) /\
  appended_records (trace_of r2) = [] /\
  state_after r2 = state_after r1.
Proof.
  intros Hl1 Hg1 Hl2 Hg2 Hne Hpre Hnew Hroom Hok Htail id.
  pose proof (decode_of_members _ _ _ Hl1 Hg1) as Hd1.
  pose proof (decode_of_members _ _ _ Hl2 Hg2) as Hd2.
  rewrite <- Hpre in Hd2. fold id in Hd1, Hd2, Hnew.
  split; [exact Hd1 | split; [exact Hd2 |]].
  intros r1. split; [now apply processMessage_novel_records |].
  assert (Hfound : isMessageProcessed (state_after r1) id = 1).
  { subst r1. rewrite (processMessage_novel_state c1 message1 cid1 env1 st id Hd1 Hnew).
    rewrite Hok, Htail. now apply addProcessedMessage_found. }
  intros r2. subst r2.
  rewrite (processMessage_skip c2 message2 cid2 env2 (state_after r1) id Hd2 Hfound).
  unfold trace_of, state_after. simpl. auto.
Qed.

End StreamRecord.

(** C4 at a concrete input. *)
Lemma C4_record_has_two_fields_witness :
  decode (Some payload_with_extra) = Some "m" /\
  isMessageProcessed createConsumerState "m" = 0 /\
  appended_records
    (trace_of (processMessage no_error (Some payload_with_extra) 2
                 (env_published EmptyString) createConsumerState))
  = [two_fields "m" 2].
Proof.
  split; [reflexivity | split; [reflexivity |]].
  apply (C4_record_has_two_fields no_error (Some payload_with_extra) 2
           (env_published EmptyString) createConsumerState "m"
           [("message_id", JString "m"); ("extra", JInteger 1)]); reflexivity.
Defined.

(** C4 as stated fails: the payload [{"message_id":"m","extra":1}] has the
    pass-through field [extra], and the record sent to the stream for it
    has no such field. *)
Lemma C4_pass_through_field_not_appended :
  let message := Some payload_with_extra in
  let r := processMessage no_error message 2 (env_published EmptyString)
             createConsumerState in
  json_object_get (loaded_root (json_loads_buf message)) "extra" = Some (JInteger 1) /\
  exists record,
    appended_records (trace_of r) = [record] /\
    record_has_field record "extra" = false.
Proof.
  split; [reflexivity |].
  exists (two_fields "m" 2). split; reflexivity.
Qed.

(** C10 at a concrete input: the empty cache, identifiers of 37 and 38
    bytes. *)
Lemma C10_truncated_identifiers_collide_witness :
  long_id_1 <> long_id_2 /\
  substring 0 36 long_id_1 = substring 0 36 long_id_2 /\
  appended_records
    (trace_of
       (processMessage no_error (Some (payload long_id_2)) 2 env_failed
          (state_after
             (processMessage no_error (Some (payload long_id_1)) 2
                (env_published EmptyString) createConsumerState))))
  = [].
Proof.
  assert (Hne : long_id_1 <> long_id_2) by (vm_compute; discriminate).
  split; [exact Hne | split; [reflexivity |]].
  apply (C10_truncated_identifiers_collide no_error no_error
           (Some (payload long_id_1)) (Some (payload long_id_2)) 2 2
           (env_published EmptyString) env_failed createConsumerState
           [("message_id", JString long_id_1)] [("message_id", JString long_id_2)]
           long_id_1 long_id_2);
    solve [reflexivity | exact Hne].
Defined.

(** C10 as stated fails when the cache is full: the first message is
    forwarded (its record is sent and accepted) but its identifier cannot be
    stored, so the second message, with the same first 36 bytes, is not
    skipped and a second record is sent. *)
Lemma C10_full_cache_forwards_both :
  let r1 := processMessage no_error (Some (payload long_id_1)) 2
              (env_published EmptyString) full_cache in
  let r2 := processMessage no_error (Some (payload long_id_2)) 2
              (env_published EmptyString) (state_after r1) in
  long_id_1 <> long_id_2 /\
  substring 0 36 long_id_1 = substring 0 36 long_id_2 /\
  processed_message_count full_cache = MAX_PROCESSED_MSGS /\
  appended_records (trace_of r1) = [two_fields uuid 2] /\
  command_failed (xadd (env_published EmptyString)) = false /\
  appended_records (trace_of r2) = [two_fields uuid 2] /\
  ~ In (SKIPPED 2 uuid) (trace_of r2).
Proof.
  split; [vm_compute; discriminate |].
  split; [reflexivity |].
  split; [vm_compute; reflexivity |].
  split; [vm_compute; reflexivity |].
  split; [reflexivity |].
  split; [vm_compute; reflexivity |].
  vm_compute. intros H. repeat (destruct H as [H|H]; [discriminate H |]). exact H.
Qed.

(** ** The run loop *)

Section RunLoop.
Context {J : Jansson} {H : Hiredis}.

Lemma count_events_app (p : event -> bool) (a b : trace) :
  count_events p (a ++ b) = (count_events p a + count_events p b)%nat.
Proof. unfold count_events. now rewrite filter_app, length_app. Qed.

Lemma parseMessage_no_received (message : option string) (m : Message) :
  count_events is_received (snd (parseMessage message m)) = 0%nat.
Proof. unfold parseMessage. repeat break_match; reflexivity. Qed.

Lemma addProcessedMessage_no_received (st : consumerState) (id tail : string) :
  count_events is_received (snd (addProcessedMessage st id tail)) = 0%nat.
Proof. unfold addProcessedMessage. break_match; reflexivity. Qed.

(** Every call of [processMessage] prints the received message once. *)
Lemma processMessage_received_once (c : redisContext) (message : option string)
    (cid : Z) (env : call_env) (st : consumerState) :
  count_events is_received (trace_of (processMessage c message cid env st)) = 1%nat.
Proof.
  unfold processMessage.
  pose proof (parseMessage_no_received message
                {| message_id := stack_message_id env |}) as Hp.
  destruct (parseMessage message {| message_id := stack_message_id env |})
    as [[ret m] tp]. cbn [snd] in Hp.
  pose proof (addProcessedMessage_no_received st (message_id m) (heap_tail env)) as Ha.
  destruct (addProcessedMessage st (message_id m) (heap_tail env)) as [st' ta].
  cbn [snd] in Ha.
  repeat break_match; unfold trace_of; cbn [snd];
    repeat rewrite count_events_app; rewrite Hp; try rewrite Ha; reflexivity.
Qed.

(** C3, as the code has it. After a read that returns [n > 0] bytes the
    loop asks the reader for one reply and no more. When the buffered bytes
    start with a complete frame, that frame is taken and, if it is a
    published message, processed by one call of [processMessage]; the bytes
    after it, whatever they hold, are what the reader keeps for the next
    turn. When they do not, nothing is processed. *)
Theorem C3_one_frame_per_read (cid : Z) (e : turn_env) (s : loop_state) :
  read_n e > 0 ->
  let r := loop_turn cid e s in
  match reader_parse (fed e s) with
  | Complete frame rest =>
      buf (reader (turn_state r)) = rest /\
      turn_break r = false /\
      count_events is_received (turn_trace r)
      = (if is_published_frame frame then 1 else 0)%nat
  | Incomplete =>
      buf (reader (turn_state r)) = fed e s /\
      turn_break r = false /\
      count_events is_received (turn_trace r) = 0%nat
  | ProtocolError =>
      turn_break r = true /\
      count_events is_received (turn_trace r) = 0%nat
  end.
Proof.
  intros Hn r. subst r. unfold loop_turn, redisReaderGetReply.
  apply Z.gtb_gt in Hn. rewrite Hn. unfold fed.
  destruct (reader_parse (buf (redisReaderFeed (reader s) (messages e) (read_n e))))
    as [|frame rest|]; cbn [REDIS_OK REDIS_ERR Z.eqb].
  - repeat split; reflexivity.
  - change (0 =? 0) with true. cbv iota. unfold is_published_frame.
    destruct (is_REDIS_REPLY_ARRAY frame && (elements frame >=? 3))%bool;
      [| repeat split; reflexivity].
    pose proof (processMessage_received_once (ctx s) (element_str frame 2) cid
                  (call e) (state s)) as Hone.
    destruct (processMessage (ctx s) (element_str frame 2) cid (call e) (state s))
      as [[st c] t]. unfold trace_of in Hone. simpl in Hone.
    destruct (clock e - start_time s >=? 3);
      unfold turn_state, turn_break, turn_trace; cbn [fst snd reader buf];
      rewrite count_events_app, Hone; repeat split; reflexivity.
  - repeat split; reflexivity.
Qed.

(** C5, as the code has it. The counter does not depend on what
    [processMessage] did: a turn that hands a published-message frame to
    [processMessage] adds one to it (and resets it to 0 when three seconds
    have passed since the window started), whether the message was
    forwarded, skipped, undecodable or failed to publish; any other turn
    leaves it as it was. *)
Theorem C5_counter_counts_processed_frames (cid : Z) (e : turn_env) (s : loop_state) :
  processed_messages (turn_state (loop_turn cid e s)) =
    if read_n e >? 0 then
      match reader_parse (fed e s) with
      | Complete frame _ =>
          if is_published_frame frame then
            if clock e - start_time s >=? 3 then 0 else processed_messages s + 1
          else processed_messages s
      | _ => processed_messages s
      end
    else processed_messages s.
Proof.
  unfold loop_turn, redisReaderGetReply, fed.
  destruct (read_n e >? 0); [| now destruct (read_n e =? 0)].
  destruct (reader_parse (buf (redisReaderFeed (reader s) (messages e) (read_n e))))
    as [|frame rest|]; cbn [REDIS_OK REDIS_ERR Z.eqb]; try reflexivity.
  change (0 =? 0) with true. cbv iota. unfold is_published_frame.
  destruct (is_REDIS_REPLY_ARRAY frame && (elements frame >=? 3))%bool;
    [| reflexivity].
  destruct (processMessage (ctx s) (element_str frame 2) cid (call e) (state s))
    as [[st c] t].
  now destruct (clock e - start_time s >=? 3).
Qed.

End RunLoop.

(** C3 at a concrete input: one publication in one read. *)
Lemma C3_one_frame_per_read_witness :
  read_n (turn_reading (Wire.published (payload "m1")) 0 (env_published EmptyString)) > 0 /\
  buf (reader (turn_state
                 (loop_turn 2 (turn_reading (Wire.published (payload "m1")) 0
                                 (env_published EmptyString))
                            (loop_start createConsumerState)))) = EmptyString.
Proof.
  split; [reflexivity |].
  pose proof (C3_one_frame_per_read 2
                (turn_reading (Wire.published (payload "m1")) 0 (env_published EmptyString))
                (loop_start createConsumerState) eq_refl) as Hturn.
  exact (proj1 Hturn).
Defined.

(** C3 as stated fails: a read of 110 bytes delivers two complete
    publications; the turn processes the first and goes on to [usleep] and
    the next [read] with the second still in the reader's buffer, complete
    and extractable. *)
Lemma C3_second_frame_left_buffered :
  let e := turn_reading two_frames 0 (env_published EmptyString) in
  let r := loop_turn 2 e (loop_start createConsumerState) in
  0 < read_n e <= MESSAGES_BUFFER_SIZE /\
  turn_break r = false /\
  appended_records (turn_trace r) = [two_fields "m1" 2] /\
  last (turn_trace r) Help = Usleep 1000 /\
  reader_parse (buf (reader (turn_state r)))
  = Complete (ReplyArray [ReplyString "message"; ReplyString PUBLISH_CHANNEL;
                          ReplyString (payload "m2")])
             EmptyString.
Proof.
  vm_compute. repeat split; try reflexivity; discriminate.
Qed.

(** C5 as stated fails: the cache already holds [m]; a frame carrying [m]
    again is skipped as a duplicate (nothing is sent to the stream, the
    cache is unchanged) and the counter goes from 0 to 1. *)
Lemma C5_duplicate_frame_is_counted :
  let st := {| processed_message_ids := ["m"] |} in
  let e := turn_reading (Wire.published (payload "m")) 1 (env_published EmptyString) in
  let r := loop_turn 2 e (loop_start st) in
  In (SKIPPED 2 "m") (turn_trace r) /\
  appended_records (turn_trace r) = [] /\
  state (turn_state r) = st /\
  processed_messages (loop_start st) = 0 /\
  processed_messages (turn_state r) = 1.
Proof.
  vm_compute. repeat split; auto 10.
Qed.

(** ** The command line *)



(** With the group size given first, the two options are accepted exactly
    when [0 < id <= size]. *)
Lemma parse_arguments_group_first (size id : string) :
  (exists o, parse_arguments [("g"%char, size); ("c"%char, id)] = Goes [] o)
  <-> (0 < atoi size /\ 0 < atoi id <= atoi size).
Proof.
  unfold parse_arguments. simpl.
  destruct (atoi size <=? 0) eqn:Hs.
  - apply Z.leb_le in Hs. split; [intros [o Ho]; discriminate Ho | lia].
  - apply Z.leb_gt in Hs. destruct (atoi id <=? 0) eqn:Hi.
    + apply Z.leb_le in Hi. split; [intros [o Ho]; discriminate Ho | lia].
    + apply Z.leb_gt in Hi. destruct (atoi id >? atoi size) eqn:Hgt.
      * apply Z.gtb_gt in Hgt. simpl.
        split; [intros [o Ho]; discriminate Ho | lia].
      * simpl. destruct (atoi size =? -1) eqn:E1; [apply Z.eqb_eq in E1; lia |].
        destruct (atoi id =? -1) eqn:E2; [apply Z.eqb_eq in E2; lia |].
        simpl. split; [intros _ | intros _; eexists; reflexivity].
        assert (Hle : ~ atoi id > atoi size)
          by (intros Hc; apply Z.gtb_gt in Hc; congruence).
        lia.
Qed.

(** A group size given again after the consumer id is not compared with
    it: [-g 3 -c 2 -g 1] is accepted with id 2 and size 1. *)
Lemma parse_arguments_later_group_size :
  parse_arguments [("g"%char, "3"); ("c"%char, "2"); ("g"%char, "1")]
  = Goes [] {| consumer_group_size := 1; consumer_id := 2;
               redis_host := REDIS_HOST; redis_port := REDIS_PORT; verbose := 0 |}.
Proof. reflexivity. Qed.

(** C7, at the input where it fails: the command line [-c 2 -g 3]. Its
    values satisfy [group-size > 0] and [0 < consumer-id <= group-size],
    and the same options in the order [-g 3 -c 2] are accepted. In this
    order the consumer id is compared with the group size before [-g] has
    been read (it is still -1): the program reports too many consumers and
    exits with status 1 without printing the usage text. *)
Theorem C7_consumer_id_before_group_size :
  spec_valid_identity [("c"%char, "2"); ("g"%char, "3")] = true /\
  parse_arguments [("c"%char, "2"); ("g"%char, "3")]
  = Exited [Eprintf "Too many consumers. Maximum number of consumers is %d\n"
              [AInt (-1)];
            Exit EXIT_FAILURE]
           EXIT_FAILURE /\
  prints_usage [Eprintf "Too many consumers. Maximum number of consumers is %d\n"
                  [AInt (-1)];
                Exit EXIT_FAILURE] = false /\
  parse_arguments [("g"%char, "3"); ("c"%char, "2")]
  = Goes [] {| consumer_group_size := 3; consumer_id := 2;
               redis_host := REDIS_HOST; redis_port := REDIS_PORT; verbose := 0 |}.
Proof. repeat split; reflexivity. Qed.

(** ** Subscription *)

(** Once the connection, the group and the reader are there: a
    [SUBSCRIBE] that comes back without a reply or with a connection-level
    error is fatal (the connection and the reader are released, exit status
    1); a first reply that is an array of at least three elements is
    reported as a successful subscription, its second element printed as the
    channel. *)
Lemma start_subscription_reply (env : startup_env) (c : redisContext) :
  connect env = Some c ->
  err c = 0 ->
  command_failed (xgroup env) = false ->
  reader_created env = true ->
  (command_failed (subscribe env) = true ->
   start env =
     Exited [XGROUP_CREATE; SUBSCRIBE;
             Eprintf "Error subscribing to channel: %s\n"
               [AStr (errstr_after (subscribe env))];
             RedisFree; RedisReaderFree; Exit EXIT_FAILURE]
            EXIT_FAILURE) /\
  (forall r,
     reply (subscribe env) = Some r ->
     err_after (subscribe env) = 0 ->
     is_REDIS_REPLY_ARRAY r = true ->
     elements r >= 3 ->
     exists s,
       start env =
         Goes [XGROUP_CREATE; SUBSCRIBE;
               Printf "Successfully subscribed to channel: %s\n"
                 [str_arg (element_str r 1)]]
              s).
Proof.
  intros Hc He Hx Hr. unfold start. rewrite Hc, He, Hx, Hr. simpl. split.
  - intros Hf. now rewrite Hf.
  - intros r Hrep Herr Harr Hel. unfold command_failed. rewrite Hrep, Herr. simpl.
    unfold subscription_check. rewrite Harr.
    apply Z.geb_ge in Hel. rewrite Hel. simpl. eexists. reflexivity.
Qed.

(** The acknowledgment of the broker, and a lost connection. *)
Lemma start_acknowledged :
  exists s,
    start (startup_with (ok_reply (subscribe_ack PUBLISH_CHANNEL))) =
      Goes [XGROUP_CREATE; SUBSCRIBE;
            Printf "Successfully subscribed to channel: %s\n" [AStr PUBLISH_CHANNEL]]
           s.
Proof.
  apply (proj2 (start_subscription_reply
                  (startup_with (ok_reply (subscribe_ack PUBLISH_CHANNEL))) no_error
                  eq_refl eq_refl eq_refl eq_refl)
               (subscribe_ack PUBLISH_CHANNEL));
    [reflexivity | reflexivity | reflexivity | discriminate].
Qed.

Lemma start_subscribe_failed :
  start (startup_with io_failure)
  = Exited [XGROUP_CREATE; SUBSCRIBE;
            Eprintf "Error subscribing to channel: %s\n"
              [AStr "Connection reset by peer"];
            RedisFree; RedisReaderFree; Exit EXIT_FAILURE]
           EXIT_FAILURE.
Proof. reflexivity. Qed.

(** The test on the reply does not look at the channel it names. *)
Lemma subscription_check_ignores_channel :
  subscription_check (subscribe_ack "another:channel")
  = [Printf "Successfully subscribed to channel: %s\n" [AStr "another:channel"]].
Proof. reflexivity. Qed.

(** C9, at the input where it fails: the broker answers [SUBSCRIBE] with an
    error reply, that is a first reply which is not an acknowledgment,
    received without any connection-level error. The test for an
    acknowledgment fails, nothing is printed or released, and the program
    goes on to the run loop instead of exiting with a non-zero status. *)
Theorem C9_error_reply_is_not_fatal :
  let r := ReplyError "NOPERM no access to this channel" in
  (is_REDIS_REPLY_ARRAY r && (elements r >=? 3))%bool = false /\
  start (startup_with (ok_reply r))
  = Goes [XGROUP_CREATE; SUBSCRIBE]
         {| reader := redisReaderCreate; state := createConsumerState;
            ctx := no_error; start_time := 0; processed_messages := 0 |}.
Proof. split; reflexivity. Qed.

(** ** Shutdown *)

Lemma non_null_cases (p : pointer) :
  p <> Released -> (p = Null /\ non_null p = false) \/ (p = Valid /\ non_null p = true).
Proof. destruct p; intros Hp; [left | right | now elim Hp]; now split. Qed.

(** C8, as the code has it. One termination trigger, whether it is a signal
    or the call at the end of [main], releases the connection once if it
    was established and the cache once if it was created, and ends with
    [exit(0)]; so does a second trigger that arrives before the first run
    has executed a statement. The release is not idempotent: [shutdown]
    leaves the two global pointers as they are, so a second trigger that
    arrives after the first release statement of a run, before its
    [exit(0)], releases the connection a second time. *)
Theorem C8_one_trigger_releases_once (g : globals) (signum : Z) :
  global_redis_context g <> Released ->
  global_consumer_state g <> Released ->
  let t := snd (shutdown signum g) in
  count_events is_RedisFree t
  = (if non_null (global_redis_context g) then 1 else 0)%nat /\
  count_events is_FreeConsumerState t
  = (if non_null (global_consumer_state g) then 1 else 0)%nat /\
  last t Help = Exit 0 /\
  snd (shutdown_twice 0 g) = t /\
  (forall k, (1 <= k <= 2)%nat ->
             global_redis_context g = Valid ->
             count_events is_RedisFree (snd (shutdown_twice k g)) = 2%nat).
Proof.
  intros Hc Hs. destruct g as [pc ps]. simpl in Hc, Hs.
  destruct (non_null_cases pc Hc) as [[-> _]|[-> _]];
    destruct (non_null_cases ps Hs) as [[-> _]|[-> _]];
    (repeat split; try reflexivity;
     intros k Hk Hv; try discriminate Hv;
     destruct k as [|[|[|k]]]; try lia; reflexivity).
Qed.

(** C8 at a concrete input: both resources acquired. *)
Lemma C8_one_trigger_releases_once_witness :
  global_redis_context all_valid <> Released /\
  global_consumer_state all_valid <> Released /\
  count_events is_RedisFree (snd (shutdown 15 all_valid)) = 1%nat /\
  count_events is_FreeConsumerState (snd (shutdown 15 all_valid)) = 1%nat.
Proof.
  assert (H1 : global_redis_context all_valid <> Released) by discriminate.
  assert (H2 : global_consumer_state all_valid <> Released) by discriminate.
  split; [exact H1 | split; [exact H2 |]].
  pose proof (C8_one_trigger_releases_once all_valid 15 H1 H2) as Hs.
  split; [exact (proj1 Hs) | exact (proj1 (proj2 Hs))].
Defined.

(** C8 as stated fails: SIGINT starts [shutdown], which releases the
    connection; SIGTERM arrives before the handler goes on (one statement
    executed) and [shutdown] runs again from its start. The connection is
    released twice. *)
Lemma C8_second_trigger_releases_again :
  count_events is_RedisFree (snd (shutdown_twice 1 all_valid)) = 2%nat /\
  snd (shutdown_twice 1 all_valid)
  = [Printf "\nCleaning up redis context...\n" []; RedisFree;
     Printf "\nCleaning up redis context...\n" []; RedisFree;
     Printf "\nCleaning up consumer state...\n" []; FreeConsumerState;
     Exit 0].
Proof. split; reflexivity. Qed.

(** The runtime-error entry: when the loop is left, [main] ends with the
    output of [shutdown] and status 0. *)
Lemma main_break_ends_in_shutdown :
  main [("g"%char, "3"); ("c"%char, "2")]
       (startup_with (ok_reply (subscribe_ack PUBLISH_CHANNEL)))
       [{| read_n := 0; messages := EmptyString; clock := 0;
           call := env_failed |}]
  = ([XGROUP_CREATE; SUBSCRIBE;
      Printf "Successfully subscribed to channel: %s\n" [AStr PUBLISH_CHANNEL];
      Eprintf "Connection closed by server\n" []]
     ++ snd (shutdown 0 all_valid),
     Some 0).
Proof. reflexivity. Qed.

(** ** Whole runs *)

(** Started with group size 3 and consumer id 2, the consumer receives the
    same publication in two reads: one record with [consumer_id] 2 is sent
    to the stream, and the second publication is skipped. *)
Lemma main_forwards_once :
  let frame := Wire.published (payload uuid) in
  let run := main [("g"%char, "3"); ("c"%char, "2")]
                  (startup_with (ok_reply (subscribe_ack PUBLISH_CHANNEL)))
                  [turn_reading frame 0 (env_published EmptyString);
                   turn_reading frame 1 (env_published EmptyString)] in
  appended_records (fst run) = [two_fields uuid 2] /\
  In (SKIPPED 2 uuid) (fst run) /\
  snd run = None.
Proof.
  vm_compute. repeat split; auto 20.
Qed.

(** The same run when the copy stored by [addProcessedMessage] is followed
    by a non-zero byte: the second publication is not recognised and a
    second record is sent. *)
Lemma main_unterminated_copy_forwards_twice :
  let frame := Wire.published (payload uuid) in
  let run := main [("g"%char, "3"); ("c"%char, "2")]
                  (startup_with (ok_reply (subscribe_ack PUBLISH_CHANNEL)))
                  [turn_reading frame 0 (env_published "x");
                   turn_reading frame 1 (env_published EmptyString)] in
  appended_records (fst run) = [two_fields uuid 2; two_fields uuid 2].
Proof. vm_compute. reflexivity. Qed.

(** Two publications in one read, then silence: the second one is never
    processed. *)
Lemma main_second_frame_waits :
  let run := main [("g"%char, "3"); ("c"%char, "2")]
                  (startup_with (ok_reply (subscribe_ack PUBLISH_CHANNEL)))
                  [turn_reading two_frames 0 (env_published EmptyString)] in
  appended_records (fst run) = [two_fields "m1" 2] /\
  snd run = None.
Proof. vm_compute. split; reflexivity. Qed.

(** * Further properties of the code *)

(** ** The dedup cache, continued *)

Lemma scan_ids_In (ids : list string) (id : string) :
  scan_ids ids id = 1 <-> In id ids.
Proof.
  induction ids as [|x ids IH]; simpl.
  - split; [discriminate | contradiction].
  - destruct (String.eqb_spec x id) as [He|Hne].
    + split; [intros _; now left | reflexivity].
    + rewrite IH. split; [now right | intros [He|Hin]; [contradiction | exact Hin]].
Qed.

(** X1. [isMessageProcessed] answers 1 exactly for the strings held in a
    written cell of the cache, and 0 for every other string. *)
Theorem X1_lookup_is_membership (st : consumerState) (id : string) :
  (isMessageProcessed st id = 1 <-> In id (processed_message_ids st)) /\
  (isMessageProcessed st id = 0 <-> ~ In id (processed_message_ids st)).
Proof.
  unfold isMessageProcessed. split; [apply scan_ids_In |].
  pose proof (scan_ids_In (processed_message_ids st) id) as Hin.
  destruct (scan_ids_bit (processed_message_ids st) id) as [H0|H1].
  - rewrite H0 in *. split; [intros _ Hc; apply Hin in Hc; discriminate | reflexivity].
  - rewrite H1 in *. split; [discriminate | intros Hn; elim Hn; now apply Hin].
Qed.

Lemma addProcessedMessage_lookup (st : consumerState) (id tail query : string) :
  processed_message_count st < MAX_PROCESSED_MSGS ->
  (isMessageProcessed (fst (addProcessedMessage st id tail)) query = 1 <->
   isMessageProcessed st query = 1 \/ query = String.append id tail).
Proof.
  intros Hlt. rewrite addProcessedMessage_below by exact Hlt.
  unfold isMessageProcessed, strncpy_unterminated. cbn [fst processed_message_ids].
  rewrite substring_whole, !scan_ids_In, in_app_iff. simpl.
  split.
  - intros [Hl|[He|[]]]; [now left | right; now symmetry].
  - intros [Hl|Hr]; [now left | right; left; now symmetry].
Qed.

(** X2. Below capacity, an insertion makes exactly one more string
    answer 1: the identifier followed by the bytes that lie after its copy.
    When a zero byte follows the copy this is the identifier itself, and
    every other lookup is as before. *)
Theorem X2_insertion_adds_one_string (st : consumerState) (id tail query : string) :
  processed_message_count st < MAX_PROCESSED_MSGS ->
  (isMessageProcessed (fst (addProcessedMessage st id tail)) query = 1 <->
   isMessageProcessed st query = 1 \/ query = String.append id tail) /\
  (tail = EmptyString ->
   isMessageProcessed (fst (addProcessedMessage st id tail)) id = 1 /\
   (query <> id ->
    isMessageProcessed (fst (addProcessedMessage st id tail)) query
    = isMessageProcessed st query)).
Proof.
  intros Hlt. split; [now apply addProcessedMessage_lookup |].
  intros ->. split; [now apply addProcessedMessage_found |].
  intros Hne.
  pose proof (addProcessedMessage_lookup st id EmptyString query Hlt) as Hiff.
  rewrite append_empty_r in Hiff.
  destruct (scan_ids_bit (processed_message_ids st) query) as [H0|H1];
    fold (isMessageProcessed st query) in *.
  - rewrite H0.
    destruct (scan_ids_bit
                (processed_message_ids (fst (addProcessedMessage st id EmptyString)))
                query) as [H0'|H1']; [exact H0' |].
    apply Hiff in H1'. destruct H1' as [Hc|Hc]; [congruence | contradiction].
  - rewrite H1. apply Hiff. now left.
Qed.

Lemma X2_insertion_adds_one_string_witness :
  processed_message_count createConsumerState < MAX_PROCESSED_MSGS /\
  isMessageProcessed (fst (addProcessedMessage createConsumerState uuid EmptyString)) uuid
  = 1.
Proof.
  assert (Hlt : processed_message_count createConsumerState < MAX_PROCESSED_MSGS)
    by reflexivity.
  split; [exact Hlt |].
  exact (proj1 (proj2 (X2_insertion_adds_one_string createConsumerState uuid
                         EmptyString uuid Hlt) eq_refl)).
Defined.

Lemma addProcessedMessage_count_step (st : consumerState) (id tail : string) :
  processed_message_count st <= MAX_PROCESSED_MSGS ->
  processed_message_count (fst (addProcessedMessage st id tail))
  = Z.min MAX_PROCESSED_MSGS (processed_message_count st + 1).
Proof.
  intros Hle. unfold addProcessedMessage.
  destruct (processed_message_count st <? MAX_PROCESSED_MSGS) eqn:Hlt; simpl.
  - apply Z.ltb_lt in Hlt. unfold processed_message_count in *. simpl.
    rewrite length_app. simpl. lia.
  - apply Z.ltb_ge in Hlt. lia.
Qed.

(** X3. Starting at or below the capacity, a sequence of insertions
    leaves the cache with the smaller of the capacity and the number of
    identifiers it had plus the number of insertions: it fills up to
    [MAX_PROCESSED_MSGS] and stays there. *)
Theorem X3_count_saturates (ins : list (string * string)) (st : consumerState) :
  processed_message_count st <= MAX_PROCESSED_MSGS ->
  processed_message_count (fst (add_all st ins))
  = Z.min MAX_PROCESSED_MSGS (processed_message_count st + Z.of_nat (List.length ins)).
Proof.
  revert st. induction ins as [|[id tail] ins IH]; intros st Hle.
  - simpl. lia.
  - cbn [add_all].
    pose proof (addProcessedMessage_count_step st id tail Hle) as Hstep.
    pose proof (addProcessedMessage_count st id tail Hle) as Hle1.
    destruct (addProcessedMessage st id tail) as [st1 t1]. cbn [fst] in Hstep, Hle1.
    specialize (IH st1 Hle1). destruct (add_all st1 ins) as [st2 t2].
    cbn [fst] in *. rewrite IH, Hstep. cbn [List.length]. lia.
Qed.

Lemma X3_count_saturates_witness :
  processed_message_count full_cache <= MAX_PROCESSED_MSGS /\
  processed_message_count (fst (add_all full_cache [(uuid, EmptyString)]))
  = MAX_PROCESSED_MSGS.
Proof.
  assert (Hle : processed_message_count full_cache <= MAX_PROCESSED_MSGS)
    by (vm_compute; discriminate).
  split; [exact Hle |].
  rewrite (X3_count_saturates [(uuid, EmptyString)] full_cache Hle).
  vm_compute. reflexivity.
Defined.

Lemma addProcessedMessage_account (st : consumerState) (id tail : string) :
  (processed_message_count (fst (addProcessedMessage st id tail))
   - processed_message_count st)
  + Z.of_nat (count_events is_warning (snd (addProcessedMessage st id tail))) = 1 /\
  (forall e, In e (snd (addProcessedMessage st id tail)) -> e = CAPACITY_WARNING).
Proof.
  unfold addProcessedMessage.
  destruct (processed_message_count st <? MAX_PROCESSED_MSGS); simpl.
  - split; [| contradiction]. unfold processed_message_count. simpl.
    rewrite length_app. simpl. lia.
  - split; [unfold count_events; simpl; lia |]. intros e [He|[]]. now symmetry.
Qed.

Lemma add_all_account (ins : list (string * string)) (st : consumerState) :
  (processed_message_count (fst (add_all st ins)) - processed_message_count st)
  + Z.of_nat (count_events is_warning (snd (add_all st ins)))
  = Z.of_nat (List.length ins) /\
  (forall e, In e (snd (add_all st ins)) -> e = CAPACITY_WARNING).
Proof.
  revert st. induction ins as [|[id tail] ins IH]; intros st.
  - simpl. split; [unfold count_events; simpl; lia | contradiction].
  - cbn [add_all].
    destruct (addProcessedMessage_account st id tail) as [Hacc Honly].
    destruct (addProcessedMessage st id tail) as [st1 t1]. cbn [fst snd] in Hacc, Honly.
    destruct (IH st1) as [IHacc IHonly]. destruct (add_all st1 ins) as [st2 t2].
    cbn [fst snd] in *. split.
    + rewrite count_events_app, Nat2Z.inj_add. cbn [List.length]. lia.
    + intros e He. apply in_app_or in He. destruct He; auto.
Qed.

(** X4. Every insertion is either stored or answered by one capacity
    warning: over any sequence of insertions, from any cache, the number of
    identifiers stored plus the number of warnings is the number of
    insertions, and nothing but capacity warnings is written. *)
Theorem X4_stored_or_warned (ins : list (string * string)) (st : consumerState) :
  (processed_message_count (fst (add_all st ins)) - processed_message_count st)
  + Z.of_nat (count_events is_warning (snd (add_all st ins)))
  = Z.of_nat (List.length ins) /\
  (forall e, In e (snd (add_all st ins)) -> e = CAPACITY_WARNING).
Proof. exact (add_all_account ins st). Qed.

(** ** freeConsumerState *)

Lemma cells_then_rest_NoDup (a n : nat) :
  NoDup (map IdCell (seq a n) ++ [IdArray; StateStruct]) /\
  (forall i, In (IdCell i) (map IdCell (seq a n) ++ [IdArray; StateStruct]) <->
             (a <= i < a + n)%nat).
Proof.
  revert a. induction n as [|n IH]; intros a; simpl.
  - split.
    + constructor; [intros [Hc|[]]; discriminate Hc |].
      constructor; [intros [] | constructor].
    + intros i. split; [intros [Hc|[Hc|[]]]; discriminate Hc | lia].
  - destruct (IH (S a)) as [Hnd Hin]. split.
    + constructor; [| exact Hnd]. intros Hc. apply Hin in Hc. lia.
    + intros i. rewrite Hin. split.
      * intros [He|Hr]; [injection He as He; lia | lia].
      * intros Hr. destruct (Nat.eq_dec a i) as [->|Hne]; [now left | right; lia].
Qed.

(** X5. [freeConsumerState] does nothing for a null pointer; otherwise it
    frees the cell of every stored identifier, the array and the struct,
    each exactly once. After a sequence of insertions into a fresh cache
    the cells freed and the capacity warnings together number the
    insertions: every block an insertion allocated is freed, and no other. *)
Theorem X5_free_releases_each_block_once (ins : list (string * string)) :
  let st := fst (add_all createConsumerState ins) in
  let blocks := freeConsumerState (Some st) in
  freeConsumerState None = [] /\
  NoDup blocks /\
  (forall i, In (IdCell i) blocks <-> Z.of_nat i < processed_message_count st) /\
  In IdArray blocks /\ In StateStruct blocks /\
  Z.of_nat (List.length blocks) - 2
  + Z.of_nat (count_events is_warning (snd (add_all createConsumerState ins)))
  = Z.of_nat (List.length ins).
Proof.
  intros st blocks. subst blocks. unfold freeConsumerState.
  destruct (cells_then_rest_NoDup 0 (List.length (processed_message_ids st)))
    as [Hnd Hin].
  split; [reflexivity |]. split; [exact Hnd |]. split.
  { intros i. rewrite Hin. unfold processed_message_count. lia. }
  split; [apply in_or_app; right; simpl; auto |].
  split; [apply in_or_app; right; simpl; auto |].
  destruct (add_all_account ins createConsumerState) as [Hacc _].
  fold st in Hacc. rewrite length_app, length_map, length_seq. cbn [List.length].
  unfold processed_message_count in Hacc. simpl in Hacc.
  unfold processed_message_count in Hacc. lia.
Qed.

(** ** parseMessage, continued *)

Lemma substring_length_le (n : nat) (s : string) :
  (String.length (substring 0 n s) <= n)%nat.
Proof.
  revert s. induction n as [|n IH]; intros [|c s]; simpl; try lia.
  specialize (IH s). lia.
Qed.

Lemma substring_short (n : nat) (s : string) :
  (String.length s <= n)%nat -> substring 0 n s = s.
Proof.
  revert s. induction n as [|n IH]; intros [|c s]; simpl; intros Hl;
    try reflexivity; try lia.
  rewrite IH by lia. reflexivity.
Qed.

Lemma substring_prefix (n : nat) (s : string) :
  prefix (substring 0 n s) s = true.
Proof.
  revert s. induction n as [|n IH]; intros [|c s]; simpl; try reflexivity.
  destruct (ascii_dec c c) as [_|Hne]; [apply IH | now elim Hne].
Qed.

Section ParseMessage.
Context {J : Jansson}.

(** X6. The identifier [parseMessage] stores fits the 37-byte buffer: it
    has at most 36 bytes, it is a prefix of the JSON string it was copied
    from, and it is that string when the string has at most 36 bytes (a
    UUID is stored whole). *)
Theorem X6_stored_identifier_fits (message : option string) (id : string) :
  decode message = Some id ->
  exists members value,
    json_loads_buf message = Loaded (JObject members) /\
    members_get members "message_id" = Some (JString value) /\
    (String.length id <= 36)%nat /\
    prefix id value = true /\
    ((String.length value <= 36)%nat -> id = value).
Proof.
  intros Hd. destruct (decode_inv _ _ Hd) as (members & value & Hl & Hg & ->).
  exists members, value. repeat split; try assumption.
  - apply substring_length_le.
  - apply substring_prefix.
  - intros Hs. now apply substring_short.
Qed.

Lemma parseMessage_cases (message : option string) (m : Message) :
  let r := parseMessage message m in
  (fst (fst r) = 0 /\ snd r = [] /\
   decode message = Some (message_id (snd (fst r)))) \/
  (fst (fst r) = -1 /\ snd (fst r) = m /\ decode message = None /\
   exists fmt args, snd r = [Eprintf fmt args]).
Proof.
  unfold decode, parseMessage.
  destruct (json_loads_buf message) as [root|line text].
  - destruct (json_object_get (Some root) "message_id")
      as [[ | | | n | tx | s | elems | ms]|]; simpl;
      try (right; repeat split; eexists; eexists; reflexivity).
    left. repeat split.
  - right. simpl. repeat split. eexists. eexists. reflexivity.
Qed.


End ParseMessage.

(** X6 at a concrete input: a UUID is stored whole. *)
Lemma X6_stored_identifier_fits_witness :
  decode (Some (payload uuid)) = Some uuid /\
  exists members value,
    json_loads_buf (Some (payload uuid)) = Loaded (JObject members) /\
    members_get members "message_id" = Some (JString value) /\
    (String.length uuid <= 36)%nat /\
    prefix uuid value = true /\
    ((String.length value <= 36)%nat -> uuid = value).
Proof.
  split; [reflexivity |].
  apply (X6_stored_identifier_fits (Some (payload uuid)) uuid). reflexivity.
Defined.

(** ** processMessage, continued *)

Section ProcessMessageOutcomes.
Context {J : Jansson}.

(** The four ways a call ends, with the identifier it worked on: the
    decoded one, or what the local buffer held when decoding failed. *)
Lemma processMessage_cases (c : redisContext) (message : option string) (cid : Z)
    (env : call_env) (st : consumerState) :
  exists id,
    (decode message = Some id \/
     (decode message = None /\ id = stack_message_id env)) /\
    let r := processMessage c message cid env st in
    (* skipped as already processed *)
    (isMessageProcessed st id = 1 /\ state_after r = st /\ ctx_after r = c /\
     appended_records (trace_of r) = [] /\ In (SKIPPED cid id) (trace_of r)) \/
    (* serialization failed *)
    (isMessageProcessed st id = 0 /\ state_after r = st /\ ctx_after r = c /\
     appended_records (trace_of r) = []) \/
    (* the append failed *)
    (isMessageProcessed st id = 0 /\ command_failed (xadd env) = true /\
     state_after r = st /\ ctx_after r = after_command c (xadd env) /\
     appended_records (trace_of r) = [two_fields id cid]) \/
    (* the append was accepted *)
    (isMessageProcessed st id = 0 /\ command_failed (xadd env) = false /\
     state_after r = fst (addProcessedMessage st id (heap_tail env)) /\
     ctx_after r = after_command c (xadd env) /\
     appended_records (trace_of r) = [two_fields id cid]).
Proof.
  unfold processMessage.
  pose proof (parseMessage_cases message {| message_id := stack_message_id env |}) as Hp.
  destruct (parseMessage message {| message_id := stack_message_id env |})
    as [[ret m] tp]. cbn [fst snd] in Hp.
  exists (message_id m).
  assert (Hid : decode message = Some (message_id m) \/
                (decode message = None /\ message_id m = stack_message_id env)).
  { destruct Hp as [(_ & _ & Hd)|(_ & Hm & Hd & _)]; [now left | right].
    split; [exact Hd | now rewrite Hm]. }
  assert (Htp : appended_records tp = []).
  { destruct Hp as [(_ & -> & _)|(_ & _ & _ & fmt & args & ->)]; reflexivity. }
  split; [exact Hid |]. clear Hp Hid.
  set (id := message_id m).
  pose proof (addProcessedMessage_no_record st id (heap_tail env)) as Ha.
  destruct (scan_ids_bit (processed_message_ids st) id) as [H0|H1];
    fold (isMessageProcessed st id) in *.
  - rewrite H0. cbn [Z.eqb negb].
    destruct (json_dumps _) as [modified|].
    + destruct (command_failed (xadd env)) eqn:Hf.
      * right. right. left. unfold state_after, ctx_after, trace_of. cbn [fst snd].
        repeat split; try reflexivity.
        rewrite !appended_records_app, Htp.
        destruct (ret =? 0); reflexivity.
      * right. right. right.
        destruct (addProcessedMessage st id (heap_tail env)) as [st' ta].
        unfold state_after, ctx_after, trace_of. cbn [fst snd] in *.
        repeat split; try reflexivity.
        rewrite !appended_records_app, Htp, Ha.
        destruct (ret =? 0); reflexivity.
    + right. left. unfold state_after, ctx_after, trace_of. cbn [fst snd].
      repeat split; try reflexivity.
      rewrite !appended_records_app, Htp. destruct (ret =? 0); reflexivity.
  - rewrite H1. cbn [Z.eqb negb]. left.
    unfold state_after, ctx_after, trace_of. cbn [fst snd].
    repeat split; try reflexivity.
    + rewrite !appended_records_app, Htp. destruct (ret =? 0); reflexivity.
    + apply in_or_app. right. now left.
Qed.

(** X8. A call of [processMessage] sends at most one record to the
    stream, whatever the message, the cache and the broker do; a record it
    sends has exactly the fields [message_id] and [consumer_id], the latter
    being the consumer id the call was given. *)
Theorem X8_at_most_one_record (c : redisContext) (message : option string) (cid : Z)
    (env : call_env) (st : consumerState) :
  let t := trace_of (processMessage c message cid env st) in
  appended_records t = [] \/ exists id, appended_records t = [two_fields id cid].
Proof.
  destruct (processMessage_cases c message cid env st) as (id & _ & Hc).
  cbv zeta in *.
  destruct Hc as [(_ & _ & _ & Hr & _)|[(_ & _ & _ & Hr)|[(_ & _ & _ & _ & Hr)|
                  (_ & _ & _ & _ & Hr)]]];
    [now left | now left | right; now exists id | right; now exists id].
Qed.


(** X10. A message whose identifier is already in the cache is dropped:
    no record is sent, the cache and the connection are as before, and the
    skip is printed with the consumer id and the identifier. *)
Theorem X10_duplicate_is_dropped (c : redisContext) (message : option string)
    (cid : Z) (env : call_env) (st : consumerState) (id : string) :
  decode message = Some id ->
  isMessageProcessed st id = 1 ->
  let r := processMessage c message cid env st in
  state_after r = st /\ ctx_after r = c /\
  appended_records (trace_of r) = [] /\
  In (SKIPPED cid id) (trace_of r).
Proof.
  intros Hd Hf r. subst r. rewrite (processMessage_skip c message cid env st id Hd Hf).
  unfold state_after, ctx_after, trace_of. cbn [fst snd].
  repeat split; try reflexivity. right. right. now left.
Qed.

(** X11. Forwarding and then seeing the identifier again: when a decoded
    message is forwarded (the append is accepted, the cache has room and
    the stored copy is followed by a zero byte), the identifier is in the
    cache afterwards and any later message that decodes to it sends
    nothing and leaves the cache alone. *)
Theorem X11_forward_then_skip (c c2 : redisContext) (message message2 : option string)
    (cid cid2 : Z) (env env2 : call_env) (st : consumerState) (id : string) :
  decode message = Some id ->
  decode message2 = Some id ->
  isMessageProcessed st id = 0 ->
  processed_message_count st < MAX_PROCESSED_MSGS ->
  command_failed (xadd env) = false ->
  heap_tail env = EmptyString ->
  let r := processMessage c message cid env st in
  let r2 := processMessage c2 message2 cid2 env2 (state_after r) in
  appended_records (trace_of r) = [two_fields id cid] /\
  isMessageProcessed (state_after r) id = 1 /\
  processed_message_count (state_after r) = processed_message_count st + 1 /\
  appended_records (trace_of r2) = [] /\
  state_after r2 = state_after r.
Proof.
  intros Hd Hd2 Hnew Hroom Hok Htail r r2. subst r r2.
  pose proof (processMessage_novel_state c message cid env st id Hd Hnew) as Hst.
  rewrite Hok, Htail in Hst.
  split; [now apply processMessage_novel_records |].
  assert (Hfound : isMessageProcessed (state_after (processMessage c message cid env st)) id
                   = 1) by (rewrite Hst; now apply addProcessedMessage_found).
  split; [exact Hfound |]. split.
  - rewrite Hst, addProcessedMessage_count_step by lia. lia.
  - rewrite (processMessage_skip c2 message2 cid2 env2 _ id Hd2 Hfound).
    unfold state_after, trace_of. simpl. auto.
Qed.

Lemma processMessage_keeps_cache (c : redisContext) (message : option string)
    (cid : Z) (env : call_env) (st : consumerState) :
  processed_message_count st <= MAX_PROCESSED_MSGS ->
  let st' := state_after (processMessage c message cid env st) in
  processed_message_count st' <= MAX_PROCESSED_MSGS /\
  (exists added, processed_message_ids st' = processed_message_ids st ++ added /\
                 (List.length added <= 1)%nat) /\
  (forall query, isMessageProcessed st query = 1 -> isMessageProcessed st' query = 1).
Proof.
  intros Hle st'. subst st'.
  destruct (processMessage_cases c message cid env st) as (id & _ & Hc).
  cbv zeta in Hc.
  assert (Hs : state_after (processMessage c message cid env st) = st \/
               state_after (processMessage c message cid env st)
               = fst (addProcessedMessage st id (heap_tail env))).
  { destruct Hc as [(_ & Hs & _)|[(_ & Hs & _)|[(_ & _ & Hs & _)|(_ & _ & Hs & _)]]];
      auto. }
  destruct Hs as [->| ->].
  - split; [exact Hle |]. split; [| auto].
    exists []. rewrite app_nil_r. split; [reflexivity | simpl; lia].
  - split; [now apply addProcessedMessage_count |]. split.
    + unfold addProcessedMessage.
      destruct (processed_message_count st <? MAX_PROCESSED_MSGS); cbn [fst].
      * eexists. split; [reflexivity | simpl; lia].
      * exists []. rewrite app_nil_r. split; [reflexivity | simpl; lia].
    + intros query Hq. now apply addProcessedMessage_keeps.
Qed.

(** X12. A call keeps the cache within its capacity and never forgets:
    the cells written before the call are still the first cells after it,
    at most one cell is added, and every string that answered 1 still
    does. *)
Theorem X12_call_keeps_cache (c : redisContext) (message : option string)
    (cid : Z) (env : call_env) (st : consumerState) :
  processed_message_count st <= MAX_PROCESSED_MSGS ->
  let st' := state_after (processMessage c message cid env st) in
  processed_message_count st' <= MAX_PROCESSED_MSGS /\
  (exists added, processed_message_ids st' = processed_message_ids st ++ added /\
                 (List.length added <= 1)%nat) /\
  (forall query, isMessageProcessed st query = 1 -> isMessageProcessed st' query = 1).
Proof. exact (processMessage_keeps_cache c message cid env st). Qed.

End ProcessMessageOutcomes.

Lemma X10_duplicate_is_dropped_witness :
  decode (Some (payload "m")) = Some "m" /\
  isMessageProcessed {| processed_message_ids := ["m"] |} "m" = 1 /\
  state_after (processMessage no_error (Some (payload "m")) 2 env_failed
                 {| processed_message_ids := ["m"] |})
  = {| processed_message_ids := ["m"] |}.
Proof.
  split; [reflexivity | split; [reflexivity |]].
  apply (X10_duplicate_is_dropped no_error (Some (payload "m")) 2 env_failed
           {| processed_message_ids := ["m"] |} "m"); reflexivity.
Defined.

Lemma X11_forward_then_skip_witness :
  decode (Some (payload uuid)) = Some uuid /\
  isMessageProcessed createConsumerState uuid = 0 /\
  appended_records
    (trace_of
       (processMessage no_error (Some (payload uuid)) 2 (env_published EmptyString)
          (state_after
             (processMessage no_error (Some (payload uuid)) 2
                (env_published EmptyString) createConsumerState))))
  = [].
Proof.
  split; [reflexivity | split; [reflexivity |]].
  apply (X11_forward_then_skip no_error no_error (Some (payload uuid))
           (Some (payload uuid)) 2 2 (env_published EmptyString)
           (env_published EmptyString) createConsumerState uuid); reflexivity.
Defined.

Lemma X12_call_keeps_cache_witness :
  processed_message_count full_cache <= MAX_PROCESSED_MSGS /\
  processed_message_count
    (state_after (processMessage no_error (Some (payload uuid)) 2
                    (env_published EmptyString) full_cache))
  <= MAX_PROCESSED_MSGS.
Proof.
  assert (Hle : processed_message_count full_cache <= MAX_PROCESSED_MSGS)
    by (vm_compute; discriminate).
  split; [exact Hle |].
  exact (proj1 (X12_call_keeps_cache no_error (Some (payload uuid)) 2
                  (env_published EmptyString) full_cache Hle)).
Defined.

(** ** The command line, continued *)













(** ** Startup, continued *)

Lemma start_cases (env : startup_env) :
  match start env with
  | Exited t status =>
      status = EXIT_FAILURE /\
      last t Help = Exit EXIT_FAILURE /\
      count_events is_Exit t = 1%nat /\
      count_events is_RedisFree t = (if connected env then 1 else 0)%nat /\
      count_events is_RedisReaderFree t = (if reader_made env then 1 else 0)%nat
  | Goes t s =>
      connected env = true /\ reader_made env = true /\
      command_failed (subscribe env) = false /\
      quiet t = true /\
      state s = createConsumerState /\
      reader s = redisReaderCreate /\
      processed_messages s = 0 /\
      start_time s = start_clock env /\
      err (ctx s) = 0
  end.
Proof.
  unfold start, reader_made, connected.
  destruct (connect env) as [c|]; [| repeat split].
  destruct (err c =? 0) eqn:Herr; cbn [negb]; [| repeat split].
  destruct (command_failed (xgroup env)) eqn:Hx; cbn [negb andb]; [repeat split |].
  destruct (reader_created env) eqn:Hr; cbn [negb andb]; [| repeat split].
  destruct (command_failed (subscribe env)) eqn:Hs; [repeat split |].
  unfold command_failed in Hs.
  destruct (reply (subscribe env)) as [r|]; [| discriminate Hs].
  apply negb_false_iff in Hs. apply Z.eqb_eq in Hs.
  repeat split; try assumption.
  unfold subscription_check. now destruct (is_REDIS_REPLY_ARRAY r && (elements r >=? 3))%bool.
Qed.

(** X16. [start] ends in one of two ways. It exits with status 1, [exit]
    being its last action, after releasing the connection exactly when it
    had been established without error and the reader exactly when it had
    been created (a context that [redisConnect] returns with an error set
    is not released). Or connection, group creation, reader and
    subscription all succeeded, nothing was released, and the loop starts
    with an empty cache, an empty reader, a counter of 0, the window opened
    at the clock and a connection without error. *)
Theorem X16_start_outcomes (env : startup_env) :
  match start env with
  | Exited t status =>
      status = EXIT_FAILURE /\
      last t Help = Exit EXIT_FAILURE /\
      count_events is_Exit t = 1%nat /\
      count_events is_RedisFree t = (if connected env then 1 else 0)%nat /\
      count_events is_RedisReaderFree t = (if reader_made env then 1 else 0)%nat
  | Goes t s =>
      connected env = true /\ reader_made env = true /\
      command_failed (subscribe env) = false /\
      quiet t = true /\
      state s = createConsumerState /\
      reader s = redisReaderCreate /\
      processed_messages s = 0 /\
      start_time s = start_clock env /\
      err (ctx s) = 0
  end.
Proof. exact (start_cases env). Qed.

(** ** The run loop, continued *)

Lemma quiet_app (a b : trace) : quiet (a ++ b) = (quiet a && quiet b)%bool.
Proof. unfold quiet. apply forallb_app. Qed.


Section RunLoopMore.
Context {J : Jansson} {H : Hiredis}.

Lemma parseMessage_quiet (message : option string) (m : Message) :
  quiet (snd (parseMessage message m)) = true /\
  count_events is_report (snd (parseMessage message m)) = 0%nat.
Proof. unfold parseMessage. repeat break_match; split; reflexivity. Qed.

Lemma addProcessedMessage_quiet (st : consumerState) (id tail : string) :
  quiet (snd (addProcessedMessage st id tail)) = true /\
  count_events is_report (snd (addProcessedMessage st id tail)) = 0%nat.
Proof. unfold addProcessedMessage. break_match; split; reflexivity. Qed.

(** A call of [processMessage] releases nothing, does not end the process
    and prints no throughput report. *)
Lemma processMessage_quiet (c : redisContext) (message : option string) (cid : Z)
    (env : call_env) (st : consumerState) :
  quiet (trace_of (processMessage c message cid env st)) = true /\
  count_events is_report (trace_of (processMessage c message cid env st)) = 0%nat.
Proof.
  unfold processMessage.
  destruct (parseMessage_quiet message {| message_id := stack_message_id env |})
    as [Hq Hr].
  destruct (parseMessage message {| message_id := stack_message_id env |})
    as [[ret m] tp]. cbn [snd] in Hq, Hr.
  destruct (addProcessedMessage_quiet st (message_id m) (heap_tail env)) as [Haq Har].
  destruct (addProcessedMessage st (message_id m) (heap_tail env)) as [st' ta].
  cbn [snd] in Haq, Har.
  repeat break_match; unfold trace_of; cbn [snd];
    repeat rewrite quiet_app; repeat rewrite count_events_app;
    rewrite Hq, Hr; try rewrite Haq; try rewrite Har; split; reflexivity.
Qed.

(** What a turn does to the cache: nothing, or one call of
    [processMessage]. *)
Lemma loop_turn_state (cid : Z) (e : turn_env) (s : loop_state) :
  state (turn_state (loop_turn cid e s)) = state s \/
  exists message,
    state (turn_state (loop_turn cid e s))
    = state_after (processMessage (ctx s) message cid (call e) (state s)).
Proof.
  unfold loop_turn, redisReaderGetReply.
  destruct (read_n e >? 0); [| destruct (read_n e =? 0); now left].
  destruct (reader_parse _) as [|frame rest|]; cbn [REDIS_OK REDIS_ERR Z.eqb];
    try (now left).
  change (0 =? 0) with true. cbv iota.
  destruct (is_REDIS_REPLY_ARRAY frame && (elements frame >=? 3))%bool; [| now left].
  right. exists (element_str frame 2). unfold state_after.
  destruct (processMessage (ctx s) (element_str frame 2) cid (call e) (state s))
    as [[st c] t].
  now destruct (clock e - start_time s >=? 3).
Qed.

Lemma loop_turn_quiet (cid : Z) (e : turn_env) (s : loop_state) :
  quiet (turn_trace (loop_turn cid e s)) = true.
Proof.
  unfold loop_turn, redisReaderGetReply.
  destruct (read_n e >? 0); [| destruct (read_n e =? 0); reflexivity].
  destruct (reader_parse _) as [|frame rest|]; cbn [REDIS_OK REDIS_ERR Z.eqb];
    try reflexivity.
  change (0 =? 0) with true. cbv iota.
  destruct (is_REDIS_REPLY_ARRAY frame && (elements frame >=? 3))%bool; [| reflexivity].
  destruct (processMessage_quiet (ctx s) (element_str frame 2) cid (call e) (state s))
    as [Hq _].
  destruct (processMessage (ctx s) (element_str frame 2) cid (call e) (state s))
    as [[st c] t]. unfold trace_of in Hq. cbn [snd] in Hq.
  destruct (clock e - start_time s >=? 3); unfold turn_trace; cbn [fst];
    rewrite quiet_app, Hq; reflexivity.
Qed.

Lemma loop_turn_counter (cid : Z) (e : turn_env) (s : loop_state) :
  0 <= processed_messages s ->
  0 <= processed_messages (turn_state (loop_turn cid e s)) <= processed_messages s + 1.
Proof.
  intros Hpos. unfold loop_turn, redisReaderGetReply.
  destruct (read_n e >? 0);
    [| destruct (read_n e =? 0); unfold turn_state; cbn; lia].
  destruct (reader_parse _) as [|frame rest|]; cbn [REDIS_OK REDIS_ERR Z.eqb];
    try (unfold turn_state; cbn; lia).
  change (0 =? 0) with true. cbv iota.
  destruct (is_REDIS_REPLY_ARRAY frame && (elements frame >=? 3))%bool;
    [| unfold turn_state; cbn; lia].
  destruct (processMessage (ctx s) (element_str frame 2) cid (call e) (state s))
    as [[st c] t].
  destruct (clock e - start_time s >=? 3); unfold turn_state; cbn; lia.
Qed.

End RunLoopMore.



Section WholeRuns.
Context {J : Jansson} {H : Hiredis}.

(** X17. Bytes that do not yet make a complete frame are kept: after a
    read that leaves the reader incomplete the turn processes nothing and
    changes neither the cache, the connection nor the throughput window,
    and the next read is parsed from those bytes followed by the new ones. *)
Theorem X17_incomplete_frame_is_kept (cid : Z) (e e2 : turn_env) (s : loop_state) :
  read_n e > 0 ->
  reader_parse (fed e s) = Incomplete ->
  let r := loop_turn cid e s in
  turn_break r = false /\
  turn_trace r = [Usleep 1000] /\
  state (turn_state r) = state s /\
  ctx (turn_state r) = ctx s /\
  start_time (turn_state r) = start_time s /\
  processed_messages (turn_state r) = processed_messages s /\
  fed e2 (turn_state r)
  = String.append (fed e s) (substring 0 (Z.to_nat (read_n e2)) (messages e2)).
Proof.
  intros Hn Hinc r. subst r. unfold loop_turn, redisReaderGetReply.
  apply Z.gtb_gt in Hn. rewrite Hn. unfold fed in *. rewrite Hinc.
  cbn. repeat split.
Qed.

(** X18. The throughput report. A turn prints the report exactly when it
    hands a frame to [processMessage] and at least three seconds have
    passed since the window was opened; the rate printed is the counter,
    this frame included, divided by 3, after which the counter is 0 and
    the window opens at the current clock. In every other turn the window
    keeps its start. *)
Theorem X18_report_every_three_seconds (cid : Z) (e : turn_env) (s : loop_state) :
  let r := loop_turn cid e s in
  let reported := (hands_frame e s && (clock e - start_time s >=? 3))%bool in
  count_events is_report (turn_trace r) = (if reported then 1 else 0)%nat /\
  start_time (turn_state r) = (if reported then clock e else start_time s) /\
  (reported = true ->
   In (Printf "Processed messages per second: %d\n"
         [AInt (Z.quot (processed_messages s + 1) 3)]) (turn_trace r) /\
   processed_messages (turn_state r) = 0).
Proof.
  unfold hands_frame, loop_turn, redisReaderGetReply, fed.
  destruct (read_n e >? 0); cbn [andb];
    [| destruct (read_n e =? 0); repeat split; discriminate].
  destruct (reader_parse _) as [|frame rest|]; cbn [REDIS_OK REDIS_ERR Z.eqb andb];
    try (repeat split; discriminate).
  change (0 =? 0) with true. cbv iota. unfold is_published_frame.
  destruct (is_REDIS_REPLY_ARRAY frame && (elements frame >=? 3))%bool; cbn [andb];
    [| repeat split; discriminate].
  destruct (processMessage_quiet (ctx s) (element_str frame 2) cid (call e) (state s))
    as [_ Hr].
  destruct (processMessage (ctx s) (element_str frame 2) cid (call e) (state s))
    as [[st c] t]. unfold trace_of in Hr. cbn [snd] in Hr.
  destruct (clock e - start_time s >=? 3);
    unfold turn_trace, turn_state; cbn [fst snd start_time processed_messages];
    rewrite count_events_app, Hr.
  - repeat split. apply in_or_app. right. now left.
  - repeat split; discriminate.
Qed.

(** X19. The loop over a list of turns followed by another is the loop
    over the first and, unless it was left there, the loop over the second
    from the state reached; a turn whose [read] returns 0 or less leaves
    the loop with one line on standard error and the state untouched,
    whatever turns would follow. *)
Theorem X19_run_loop_composes (cid : Z) (a b : list turn_env) (s : loop_state) :
  run_loop cid (a ++ b) s =
    (let '(t, s1, brk) := run_loop cid a s in
     if brk then (t, s1, true)
     else let '(t', s2, brk') := run_loop cid b s1 in (t ++ t', s2, brk')) /\
  (forall e, read_n e <= 0 ->
     exists line, run_loop cid (e :: b) s = ([Eprintf line []], s, true)).
Proof.
  split.
  - revert s. induction a as [|e a IH]; intros s.
    + cbn [app run_loop]. now destruct (run_loop cid b s) as [[t' s2] brk'].
    + cbn [app run_loop]. destruct (loop_turn cid e s) as [[t s1] brk].
      destruct brk; [reflexivity |]. rewrite IH.
      destruct (run_loop cid a s1) as [[ta sa] brka].
      destruct brka; [reflexivity |].
      destruct (run_loop cid b sa) as [[tb sb] brkb]. now rewrite app_assoc.
  - intros e He. cbn [run_loop]. unfold loop_turn.
    destruct (read_n e >? 0) eqn:Hgt; [apply Z.gtb_gt in Hgt; lia |].
    destruct (read_n e =? 0); eexists; reflexivity.
Qed.

Lemma run_loop_keeps (cid : Z) (turns : list turn_env) (s : loop_state) :
  processed_message_count (state s) <= MAX_PROCESSED_MSGS ->
  0 <= processed_messages s ->
  let r := run_loop cid turns s in
  processed_message_count (state (turn_state r)) <= MAX_PROCESSED_MSGS /\
  (forall query, isMessageProcessed (state s) query = 1 ->
                 isMessageProcessed (state (turn_state r)) query = 1) /\
  0 <= processed_messages (turn_state r)
    <= processed_messages s + Z.of_nat (List.length turns) /\
  quiet (turn_trace r) = true.
Proof.
  revert s. induction turns as [|e turns IH]; intros s Hcap Hpos.
  - cbn. repeat split; auto; lia.
  - cbn [run_loop].
    pose proof (loop_turn_state cid e s) as Hst.
    pose proof (loop_turn_quiet cid e s) as Hq.
    pose proof (loop_turn_counter cid e s Hpos) as Hcnt.
    destruct (loop_turn cid e s) as [[t s1] brk].
    unfold turn_state, turn_trace in Hst, Hq, Hcnt. cbn [fst snd] in Hst, Hq, Hcnt.
    assert (Hkeep : processed_message_count (state s1) <= MAX_PROCESSED_MSGS /\
                    (forall query, isMessageProcessed (state s) query = 1 ->
                                   isMessageProcessed (state s1) query = 1)).
    { destruct Hst as [->|[message ->]]; [auto |].
      destruct (processMessage_keeps_cache (ctx s) message cid (call e) (state s) Hcap)
        as (H1 & _ & H3). auto. }
    destruct Hkeep as [Hcap1 Hfound1].
    destruct brk.
    + unfold turn_state, turn_trace. cbn [fst snd List.length].
      repeat split; auto; lia.
    + specialize (IH s1 Hcap1 (proj1 Hcnt)). cbv zeta in IH.
      destruct (run_loop cid turns s1) as [[t' s2] brk'].
      unfold turn_state, turn_trace in *. cbn [fst snd List.length] in *.
      destruct IH as (I1 & I2 & I3 & I4).
      repeat split; auto; try lia.
      rewrite quiet_app, Hq, I4. reflexivity.
Qed.

(** X20. Over any number of turns the loop keeps the cache within its
    capacity and never forgets an identifier; the throughput counter stays
    between 0 and its value plus the number of turns; and nothing in the
    loop releases the connection, the reader or the cache, or ends the
    process. *)
Theorem X20_loop_invariants (cid : Z) (turns : list turn_env) (s : loop_state) :
  processed_message_count (state s) <= MAX_PROCESSED_MSGS ->
  0 <= processed_messages s ->
  let r := run_loop cid turns s in
  processed_message_count (state (turn_state r)) <= MAX_PROCESSED_MSGS /\
  (forall query, isMessageProcessed (state s) query = 1 ->
                 isMessageProcessed (state (turn_state r)) query = 1) /\
  0 <= processed_messages (turn_state r)
    <= processed_messages s + Z.of_nat (List.length turns) /\
  quiet (turn_trace r) = true.
Proof. exact (run_loop_keeps cid turns s). Qed.


(** X22. A published-message frame whose third element carries no text
    (an integer, a nil or a nested array, so that its [str] is null) is
    handed to [processMessage] as a null pointer: a JSON parse error is
    printed, nothing is sent to the stream, and the cache is as before. *)
Theorem X22_frame_without_text (cid : Z) (e : turn_env) (s : loop_state)
    (frame : redisReply) (rest : string) :
  read_n e > 0 ->
  reader_parse (fed e s) = Complete frame rest ->
  is_published_frame frame = true ->
  element_str frame 2 = None ->
  let r := loop_turn cid e s in
  turn_break r = false /\
  (exists line text,
     In (Eprintf "Error parsing JSON on line %d: %s\n" [AInt line; AStr text])
        (turn_trace r)) /\
  appended_records (turn_trace r) = [] /\
  state (turn_state r) = state s.
Proof.
  intros Hn Hparse Hpub Hnull r. subst r.
  unfold loop_turn, redisReaderGetReply. apply Z.gtb_gt in Hn. rewrite Hn.
  unfold fed in Hparse. rewrite Hparse. cbn [REDIS_OK Z.eqb].
  change (0 =? 0) with true. cbv iota.
  unfold is_published_frame in Hpub. rewrite Hpub, Hnull.
  destruct (processMessage_unparseable (ctx s) None cid (call e) (state s) (-1)
              "wrong arguments" eq_refl) as [Hrec Hst].
  assert (Hin : In (Eprintf "Error parsing JSON on line %d: %s\n"
                      [AInt (-1); AStr "wrong arguments"])
                   (trace_of (processMessage (ctx s) None cid (call e) (state s)))).
  { unfold processMessage, parseMessage. cbn [json_loads_buf].
    repeat break_match; unfold trace_of; cbn [snd]; simpl; auto. }
  destruct (processMessage (ctx s) None cid (call e) (state s)) as [[st c] t].
  unfold trace_of, state_after in *. cbn [fst snd] in *.
  destruct (clock e - start_time s >=? 3);
    unfold turn_break, turn_trace, turn_state; cbn [fst snd state];
    rewrite appended_records_app, Hrec;
    (repeat split; try reflexivity; try exact Hst;
     exists (-1), "wrong arguments"; apply in_or_app; now left).
Qed.

End WholeRuns.

Lemma X17_incomplete_frame_is_kept_witness :
  read_n (turn_reading partial_frame 0 env_failed) > 0 /\
  reader_parse (fed (turn_reading partial_frame 0 env_failed)
                    (loop_start createConsumerState)) = Incomplete /\
  turn_trace (loop_turn 2 (turn_reading partial_frame 0 env_failed)
                (loop_start createConsumerState)) = [Usleep 1000].
Proof.
  assert (Hn : read_n (turn_reading partial_frame 0 env_failed) > 0) by reflexivity.
  assert (Hp : reader_parse (fed (turn_reading partial_frame 0 env_failed)
                               (loop_start createConsumerState)) = Incomplete)
    by (vm_compute; reflexivity).
  split; [exact Hn | split; [exact Hp |]].
  exact (proj1 (proj2 (X17_incomplete_frame_is_kept 2
                         (turn_reading partial_frame 0 env_failed) end_of_stream
                         (loop_start createConsumerState) Hn Hp))).
Defined.

Lemma X20_loop_invariants_witness :
  processed_message_count (state (loop_start full_cache)) <= MAX_PROCESSED_MSGS /\
  0 <= processed_messages (loop_start full_cache) /\
  processed_message_count
    (state (turn_state
              (run_loop 2 [turn_reading (Wire.published (payload uuid)) 0
                             (env_published EmptyString)]
                        (loop_start full_cache))))
  <= MAX_PROCESSED_MSGS.
Proof.
  assert (Hc : processed_message_count (state (loop_start full_cache))
               <= MAX_PROCESSED_MSGS) by (vm_compute; discriminate).
  assert (Hp : 0 <= processed_messages (loop_start full_cache))
    by (vm_compute; discriminate).
  split; [exact Hc | split; [exact Hp |]].
  exact (proj1 (X20_loop_invariants 2
                  [turn_reading (Wire.published (payload uuid)) 0
                     (env_published EmptyString)]
                  (loop_start full_cache) Hc Hp)).
Defined.


Lemma X22_frame_without_text_witness :
  read_n (turn_reading frame_with_integer 0 (env_published EmptyString)) > 0 /\
  reader_parse (fed (turn_reading frame_with_integer 0 (env_published EmptyString))
                    (loop_start createConsumerState))
  = Complete (ReplyArray [ReplyString "message"; ReplyString PUBLISH_CHANNEL;
                          ReplyInteger 5]) EmptyString /\
  appended_records
    (turn_trace (loop_turn 2 (turn_reading frame_with_integer 0
                                (env_published EmptyString))
                   (loop_start createConsumerState)))
  = [].
Proof.
  assert (Hn : read_n (turn_reading frame_with_integer 0 (env_published EmptyString)) > 0)
    by reflexivity.
  assert (Hp : reader_parse (fed (turn_reading frame_with_integer 0
                                    (env_published EmptyString))
                               (loop_start createConsumerState))
               = Complete (ReplyArray [ReplyString "message"; ReplyString PUBLISH_CHANNEL;
                                       ReplyInteger 5]) EmptyString)
    by (vm_compute; reflexivity).
  split; [exact Hn | split; [exact Hp |]].
  exact (proj1 (proj2 (proj2 (X22_frame_without_text 2 _ _ _ _ Hn Hp eq_refl eq_refl)))).
Defined.

(** ** Sequences of messages *)

Section SequencesOfMessages.
Context {J : Jansson}.

Lemma not_found_after_insertion (st : consumerState) (id query : string) :
  processed_message_count st < MAX_PROCESSED_MSGS ->
  (isMessageProcessed (fst (addProcessedMessage st id EmptyString)) query = 0 <->
   isMessageProcessed st query = 0 /\ query <> id).
Proof.
  intros Hlt.
  pose proof (addProcessedMessage_lookup st id EmptyString query Hlt) as Hiff.
  rewrite append_empty_r in Hiff.
  destruct (scan_ids_bit (processed_message_ids st) query) as [H0|H1];
    fold (isMessageProcessed st query) in *;
    destruct (scan_ids_bit
                (processed_message_ids (fst (addProcessedMessage st id EmptyString)))
                query) as [H0'|H1'];
    fold (isMessageProcessed (fst (addProcessedMessage st id EmptyString)) query) in *.
  - split; [intros _ | intros _; exact H0'].
    split; [exact H0 |]. intros ->. rewrite H0' in Hiff.
    destruct Hiff as [_ Hb]. specialize (Hb (or_intror eq_refl)). discriminate Hb.
  - split; [rewrite H1'; discriminate |]. intros [_ Hne].
    apply Hiff in H1'. destruct H1' as [Hc|Hc]; [congruence | contradiction].
  - split; [intros _ | intros [Hc _]; congruence].
    rewrite H0' in Hiff. destruct Hiff as [_ Hb]. specialize (Hb (or_introl H1)).
    discriminate Hb.
  - split; [rewrite H1'; discriminate | intros [Hc _]; congruence].
Qed.

Lemma two_fields_inj (id id' : string) (cid : Z) :
  two_fields id cid = two_fields id' cid -> id = id'.
Proof. unfold two_fields. intros Heq. now injection Heq. Qed.

(** X23. Each identifier is forwarded once. Over a sequence of calls that
    all decode, whose appends are all accepted and whose stored copies are
    followed by a zero byte, with room in the cache for all of them: a
    record is sent for an identifier exactly when it occurs in the sequence
    and was not in the cache at the start, and no identifier gets two
    records, however often it occurs. *)
Theorem X23_each_identifier_forwarded_once (c : redisContext) (cid : Z)
    (calls : list (option string * call_env)) (ids : list string)
    (st : consumerState) :
  Forall2 forwards calls ids ->
  processed_message_count st + Z.of_nat (List.length calls) <= MAX_PROCESSED_MSGS ->
  let records := appended_records (trace_of (process_all c cid calls st)) in
  NoDup records /\
  (forall record, In record records -> exists id, record = two_fields id cid) /\
  (forall id, In (two_fields id cid) records <->
              In id ids /\ isMessageProcessed st id = 0).
Proof.
  intros Hall. revert c st.
  induction Hall as [|[message env] id calls ids Hfirst Hrest IH]; intros c st Hroom.
  - cbn. split; [constructor |]. split; [contradiction |].
    intros id. split; [contradiction | intros [[] _]].
  - destruct Hfirst as (Hd & Hok & Htail). cbn [fst snd] in Hd, Hok, Htail.
    cbn [List.length] in Hroom. cbn [process_all].
    destruct (scan_ids_bit (processed_message_ids st) id) as [Hnew|Hold];
      fold (isMessageProcessed st id) in *.
    + pose proof (processMessage_novel_state c message cid env st id Hd Hnew) as Hst.
      pose proof (processMessage_novel_records c message cid env st id Hd Hnew) as Hrec.
      rewrite Hok, Htail in Hst.
      destruct (processMessage c message cid env st) as [[st1 c1] t1].
      unfold state_after, trace_of in Hst, Hrec. cbn [fst snd] in Hst, Hrec. subst st1.
      assert (Hlt : processed_message_count st < MAX_PROCESSED_MSGS) by lia.
      assert (Hroom1 : processed_message_count (fst (addProcessedMessage st id EmptyString))
                       + Z.of_nat (List.length calls) <= MAX_PROCESSED_MSGS).
      { rewrite addProcessedMessage_count_step by lia. lia. }
      specialize (IH c1 _ Hroom1). cbv zeta in IH.
      destruct (process_all c1 cid calls (fst (addProcessedMessage st id EmptyString)))
        as [[st2 c2] t2].
      unfold trace_of in *. cbn [snd] in *.
      rewrite appended_records_app, Hrec. cbn [app].
      destruct IH as (Hnd & Hshape & Hiff). split; [| split].
      * constructor; [| exact Hnd]. intros Hin. apply Hiff in Hin.
        destruct Hin as [_ Hnot].
        apply (not_found_after_insertion st id id Hlt) in Hnot. now destruct Hnot.
      * intros record [<-|Hin]; [now exists id | now apply Hshape].
      * intros id'. cbn [In]. rewrite Hiff, (not_found_after_insertion st id id' Hlt).
        split.
        -- intros [Heq|(Hin & Hn & Hne)].
           ++ apply two_fields_inj in Heq. subst id'. split; [now left | exact Hnew].
           ++ split; [now right | exact Hn].
        -- intros [[->|Hin] Hn]; [now left |].
           destruct (string_dec id' id) as [->|Hne]; [now left | right; auto].
    + pose proof (processMessage_skip c message cid env st id Hd Hold) as Hskip.
      rewrite Hskip.
      assert (Hroom1 : processed_message_count st + Z.of_nat (List.length calls)
                       <= MAX_PROCESSED_MSGS) by lia.
      specialize (IH c st Hroom1). cbv zeta in IH.
      destruct (process_all c cid calls st) as [[st2 c2] t2].
      unfold trace_of in *. cbn [snd] in *.
      rewrite appended_records_app. cbn [appended_records stream_record SKIPPED app].
      destruct IH as (Hnd & Hshape & Hiff). split; [exact Hnd | split; [exact Hshape |]].
      intros id'. rewrite Hiff. cbn [In]. split.
      * intros [Hin Hn]. split; [now right | exact Hn].
      * intros [[->|Hin] Hn]; [congruence | now split].
Qed.

End SequencesOfMessages.

Lemma X23_each_identifier_forwarded_once_witness :
  Forall2 forwards
    [(Some (payload "m"), env_published EmptyString);
     (Some (payload "m"), env_published EmptyString);
     (Some (payload "n"), env_published EmptyString)]
    ["m"; "m"; "n"] /\
  NoDup (appended_records
           (trace_of (process_all no_error 2
                        [(Some (payload "m"), env_published EmptyString);
                         (Some (payload "m"), env_published EmptyString);
                         (Some (payload "n"), env_published EmptyString)]
                        createConsumerState))).
Proof.
  assert (Hall : Forall2 forwards
            [(Some (payload "m"), env_published EmptyString);
             (Some (payload "m"), env_published EmptyString);
             (Some (payload "n"), env_published EmptyString)]
            ["m"; "m"; "n"])
    by (repeat (apply Forall2_cons; [repeat split; vm_compute; reflexivity |]);
        apply Forall2_nil).
  assert (Hroom : processed_message_count createConsumerState + Z.of_nat 3
                  <= MAX_PROCESSED_MSGS) by (vm_compute; discriminate).
  split; [exact Hall |].
  exact (proj1 (X23_each_identifier_forwarded_once no_error 2 _ _ createConsumerState
                  Hall Hroom)).
Defined.
